(** * Keyword-annotation utilities: candidate construction and overlap scoring

    A shallow embedding of [utils/prepare_data.py], [utils/add_samples.py] and
    [utils/compute_annotation_overlap.py], with the properties their
    specification states.

    Conventions of the embedding:
    - Python [str] is [string]; a Python [list] is a [list]; a Python [set] of
      strings is a [gset string]; a Python [dict] with string keys is a
      [gmap string _].
    - Python [int] arguments read from the command line are [Z].
    - Python [float] is idealised as an exact real number [R]: the scores are
      quotients of set sizes, and the theorems below are about the formulas,
      not about rounding; [x ** 0.5] is the square root.
    - The module [random] is modelled over an explicit generator state, the
      list of raw draws still to be consumed, so that "for every outcome of
      the randomness source" is a universal quantification over that state.
    - A raised exception is a value of [exn]; console output is not modelled. *)

From Stdlib Require Import Reals Lra ZArith Ascii String List.
From stdpp Require Import base gmap sets list strings sorting.

(** ** Python exceptions *)

Inductive exn : Type :=
| ValueError (msg : string).

(** ** The module [random] *)

Module PyRandom.

(** The generator: the raw draws it will deliver, in order.  An exhausted
    list keeps delivering [0]. *)
Definition rng : Type := list nat.

(** The result of a computation that consumes randomness and may raise. *)
Inductive outcome (A : Type) : Type :=
| Ok (a : A) (g : rng)
| Raise (e : exn).
Arguments Ok {A} a g.
Arguments Raise {A} e.

Definition M (A : Type) : Type := rng -> outcome A.

Definition ret {A} (a : A) : M A := fun g => Ok a g.

Definition bind {A B} (m : M A) (k : A -> M B) : M B :=
  fun g => match m g with
           | Ok a g' => k a g'
           | Raise e => Raise e
           end.

Definition raise {A} (e : exn) : M A := fun _ => Raise e.

(** [for x in xs: ys.append(f(x))] *)
Fixpoint mapM {A B} (f : A -> M B) (xs : list A) : M (list B) :=
  match xs with
  | [] => ret []
  | x :: xs' => bind (f x) (fun y => bind (mapM f xs') (fun ys => ret (y :: ys)))
  end.

(** [_randbelow(n)]: an integer in [0, n), for [n > 0]. *)
Definition randbelow (n : nat) (g : rng) : nat * rng :=
  match g with
  | [] => (0, [])
  | x :: g' => (x mod n, g')
  end.

Section Sequences.
Context {A : Type}.

(** The loop of [random.sample] (CPython, [Lib/random.py]):
<<
    pool = list(population)
    for i in range(k):
        j = randbelow(n - i)
        result[i] = pool[j]
        pool[j] = pool[n - i - 1]
>>
    [m] is [n - i], the number of entries of [pool] still in play.  For
    very large populations CPython tracks the chosen positions in a set
    instead; both select [k] distinct positions. *)
Fixpoint sample_loop (pool : list A) (m k : nat) (g : rng) : list A * rng :=
  match k with
  | O => ([], g)
  | S k' =>
      let '(j, g1) := randbelow m g in
      match pool !! j, pool !! (m - 1) with
      | Some x, Some y =>
          let '(result, g2) := sample_loop (<[j := y]> pool) (m - 1) k' g1 in
          (x :: result, g2)
      | _, _ => ([], g1)
      end
  end.

(** [random.sample(population, k)] *)
Definition sample (population : list A) (k : Z) : M (list A) :=
  fun g =>
    let n := length population in
    if bool_decide (0 <= k <= Z.of_nat n)%Z then
      let '(result, g') := sample_loop population n (Z.to_nat k) g in
      Ok result g'
    else Raise (ValueError "Sample larger than population or is negative").

(** The loop of [random.shuffle]:
<<
    for i in reversed(range(1, len(x))):
        j = randbelow(i + 1)
        x[i], x[j] = x[j], x[i]
>>
    [shuffle_loop i x] runs the iterations [i, i-1, ..., 1]. *)
Fixpoint shuffle_loop (i : nat) (x : list A) (g : rng) : list A * rng :=
  match i with
  | O => (x, g)
  | S i' =>
      let '(j, g1) := randbelow (S i) g in
      match x !! i, x !! j with
      | Some xi, Some xj => shuffle_loop i' (<[j := xi]> (<[i := xj]> x)) g1
      | _, _ => (x, g1)
      end
  end.

(** [random.shuffle(x)]; the list is shuffled in place, so the embedding
    returns the new contents. *)
Definition shuffle (x : list A) : M (list A) :=
  fun g => let '(x', g') := shuffle_loop (length x - 1) x g in Ok x' g'.

End Sequences.

End PyRandom.

Import PyRandom.

#[global] Instance M_ret : MRet M := @PyRandom.ret.
#[global] Instance M_bind : MBind M := fun A B k m => PyRandom.bind m k.

(** ** Python values read from JSON records *)

(** [bool(v)] for a field that is absent ([None]) or holds a string. *)
Definition truthy (v : option string) : bool :=
  match v with
  | Some s => negb (String.eqb s "")
  | None => false
  end.

(** [a or b] *)
Definition py_or (a b : option string) : option string :=
  if truthy a then a else b.

(** [s.endswith(suffix)] *)
Definition endswith (s suffix : string) : bool :=
  let n := String.length s in
  let m := String.length suffix in
  (m <=? n)%nat && String.eqb (substring (n - m) m s) suffix.

(** The fixed last option of every candidate list. *)
Definition sentinel : string := "None of the above".

(** ** Input and output records *)

(** A biography entry.  Field values are strings; a field is [None] when the
    key is absent. *)
Module BioItem.
Record t : Type := mk {
  character_json : option string;
  id : option string;
  character_name : option string;
  name : option string;
  biography : option string
}.
End BioItem.

(** A model-output entry: [personality_keywords] maps a language to its
    keyword list; an absent key is an empty map. *)
Module ModelItem.
Record t : Type := mk {
  character_json : string;
  personality_keywords : gmap string (list string)
}.
End ModelItem.

(** A joined character. *)
Module Character.
Record t : Type := mk {
  id : string;
  name : string;
  biography : string;
  model_keywords : list string
}.
End Character.

(** A candidate task instance, one output line. *)
Module Row.
Record t : Type := mk {
  id : string;
  text : string;
  candidates : list string;
  model_keywords : list string
}.
End Row.

(** ** [load_bio_file] (identical in prepare_data.py and add_samples.py) *)

Section LoadBioFile.
(** The records of a file, and the three readers the function dispatches to
    ([load_jsonl], [json.load] on the opened file, [pd.read_csv] followed by
    [to_dict('records')]); a reader may itself raise. *)
Context {records : Type}.
Variables load_jsonl json_load read_csv_records : string -> exn + records.

Definition load_bio_file (bio_file_path : string) : exn + records :=
  if endswith bio_file_path ".jsonl" then load_jsonl bio_file_path
  else if endswith bio_file_path ".json" then json_load bio_file_path
  else if endswith bio_file_path ".csv" then read_csv_records bio_file_path
  else inl (ValueError "Unknown bio file format").
End LoadBioFile.

(** ** Candidate construction shared by both scripts *)

(** [{item['character_json']: item for item in model_data}]: a later entry
    replaces an earlier one with the same key. *)
Definition build_model_lookup (model_data : list ModelItem.t) : gmap string ModelItem.t :=
  foldl (fun lookup item => <[ModelItem.character_json item := item]> lookup) ∅ model_data.

(** [model_item.get('personality_keywords', {}).get('English', [])] *)
Definition english_keywords (model_item : ModelItem.t) : list string :=
  default [] (ModelItem.personality_keywords model_item !! "English").

(** [bio_item.get('character_name') or bio_item.get('name', 'Unknown')] *)
Definition display_name (bio_item : BioItem.t) : string :=
  default "Unknown"
    (py_or (BioItem.character_name bio_item)
           (Some (default "Unknown" (BioItem.name bio_item)))).

(** The dictionary appended to the joined list. *)
Definition joined_record (char_id : string) (bio_item : BioItem.t)
    (keywords : list string) : Character.t :=
  {| Character.id := char_id;
     Character.name := display_name bio_item;
     Character.biography := default "" (BioItem.biography bio_item);
     Character.model_keywords := keywords |}.

(** [[k for k in all_keywords_list if k not in true_keywords]] *)
Definition possible_distractors (all_keywords_list true_keywords : list string)
    : list string :=
  filter (fun k => k ∉ true_keywords) all_keywords_list.

(** The [else] branch up to the choice of the distractors. *)
Definition choose_distractors (num_distractors : Z)
    (all_keywords_list true_keywords : list string) : M (list string) :=
  let possible := possible_distractors all_keywords_list true_keywords in
  if bool_decide (Z.of_nat (length possible) < num_distractors)%Z
  then mret possible
  else sample possible num_distractors.

(** The candidate list before shuffling: a truncation of the true keywords
    when there are too many, the true keywords followed by the distractors
    otherwise. *)
Definition unshuffled_candidates (candidate_pool_size : Z)
    (all_keywords_list true_keywords : list string) : M (list string) :=
  let num_true := Z.of_nat (length true_keywords) in
  let num_distractors := (candidate_pool_size - num_true)%Z in
  if bool_decide (num_distractors < 0)%Z
  then sample true_keywords candidate_pool_size
  else
    distractors ← choose_distractors num_distractors all_keywords_list true_keywords;
    mret (true_keywords ++ distractors).

(** The body of the loop over [sampled_data] through [random.shuffle]
    (prepare_data.py lines 115-142, add_samples.py lines 124-151, the same
    text in both). *)
Definition shuffled_candidates (candidate_pool_size : Z)
    (all_keywords_list true_keywords : list string) : M (list string) :=
  candidates ← unshuffled_candidates candidate_pool_size all_keywords_list true_keywords;
  shuffle candidates.

(** [f"<h1>{item['name']}</h1><p>{item['biography']}</p>"] *)
Definition display_text (item : Character.t) : string :=
  "<h1>" +:+ Character.name item +:+ "</h1>" +:+
  "<p>" +:+ Character.biography item +:+ "</p>".

(** ** prepare_data.py *)

Module PrepareData.

Record args : Type := mk_args {
  sample_size : Z;
  candidate_pool_size : Z
}.

(** One iteration of the loop over [bio_data]; the state is
    [(joined_data, all_keywords_pool)]. *)
Definition join_step (model_lookup : gmap string ModelItem.t)
    (st : list Character.t * gset string) (bio_item : BioItem.t)
    : list Character.t * gset string :=
  let '(joined_data, all_keywords_pool) := st in
  let char_id := py_or (BioItem.character_json bio_item) (BioItem.id bio_item) in
  match char_id with
  | None => st
  | Some char_id =>
      if negb (truthy (Some char_id)) then st
      else
        match model_lookup !! char_id with
        | None => st
        | Some model_item =>
            let keywords := english_keywords model_item in
            match keywords with
            | [] => st
            | _ :: _ =>
                (joined_data ++ [joined_record char_id bio_item keywords],
                 all_keywords_pool ∪ list_to_set keywords)
            end
        end
  end.

Definition join (model_lookup : gmap string ModelItem.t)
    (bio_data : list BioItem.t) : list Character.t * gset string :=
  foldl (join_step model_lookup) ([], ∅) bio_data.

(** [random.sample(joined_data, sample_size)] when more characters were
    joined than requested, all of them otherwise. *)
Definition select_samples (sample_size : Z) (joined_data : list Character.t)
    : M (list Character.t) :=
  if bool_decide (sample_size < Z.of_nat (length joined_data))%Z
  then sample joined_data sample_size
  else mret joined_data.

(** The candidate list written for one character: the shuffled list, with
    nothing appended. *)
Definition build_candidates (candidate_pool_size : Z)
    (all_keywords_list true_keywords : list string) : M (list string) :=
  shuffled_candidates candidate_pool_size all_keywords_list true_keywords.

Definition build_row (candidate_pool_size : Z) (all_keywords_list : list string)
    (item : Character.t) : M Row.t :=
  let true_keywords := Character.model_keywords item in
  candidates ← build_candidates candidate_pool_size all_keywords_list true_keywords;
  mret {| Row.id := Character.id item;
          Row.text := display_text item;
          Row.candidates := candidates;
          Row.model_keywords := true_keywords |}.

(** [main], from the loaded inputs to [output_rows].  [list(all_keywords_pool)]
    enumerates the set without repetition, in an order Python leaves open;
    [elements] is one such enumeration. *)
Definition main (a : args) (model_data : list ModelItem.t)
    (bio_data : list BioItem.t) : M (list Row.t) :=
  let model_lookup := build_model_lookup model_data in
  let '(joined_data, all_keywords_pool) := join model_lookup bio_data in
  sampled_data ← select_samples (sample_size a) joined_data;
  let all_keywords_list := elements all_keywords_pool in
  mapM (build_row (candidate_pool_size a) all_keywords_list) sampled_data.

End PrepareData.

(** ** add_samples.py *)

Module AddSamples.

Record args : Type := mk_args {
  num_samples : Z;
  candidate_pool_size : Z
}.

(** A record of the existing annotation file; only [id] is read. *)
Record existing_item : Type := mk_existing { existing_id : string }.

(** [{item['id'] for item in existing_data}] *)
Definition build_used_ids (existing_data : list existing_item) : gset string :=
  list_to_set (map existing_id existing_data).

(** One iteration of the loop over [bio_data]; the state is
    [(available_data, all_keywords_pool)]. *)
Definition join_step (used_ids : gset string)
    (model_lookup : gmap string ModelItem.t)
    (st : list Character.t * gset string) (bio_item : BioItem.t)
    : list Character.t * gset string :=
  let '(available_data, all_keywords_pool) := st in
  let char_id := py_or (BioItem.character_json bio_item) (BioItem.id bio_item) in
  match char_id with
  | None => st
  | Some char_id =>
      if negb (truthy (Some char_id)) || bool_decide (char_id ∈ used_ids) then st
      else
        match model_lookup !! char_id with
        | None => st
        | Some model_item =>
            let keywords := english_keywords model_item in
            match keywords with
            | [] => st
            | _ :: _ =>
                (available_data ++ [joined_record char_id bio_item keywords],
                 all_keywords_pool ∪ list_to_set keywords)
            end
        end
  end.

Definition join (used_ids : gset string) (model_lookup : gmap string ModelItem.t)
    (bio_data : list BioItem.t) : list Character.t * gset string :=
  foldl (join_step used_ids model_lookup) ([], ∅) bio_data.

(** All available characters when fewer than requested,
    [random.sample(available_data, num_samples)] otherwise. *)
Definition select_samples (num_samples : Z) (available_data : list Character.t)
    : M (list Character.t) :=
  if bool_decide (Z.of_nat (length available_data) < num_samples)%Z
  then mret available_data
  else sample available_data num_samples.

(** The candidate list written for one character: the shuffled list followed
    by [candidates.append("None of the above")]. *)
Definition build_candidates (candidate_pool_size : Z)
    (all_keywords_list true_keywords : list string) : M (list string) :=
  candidates ← shuffled_candidates candidate_pool_size all_keywords_list true_keywords;
  mret (candidates ++ [sentinel]).

Definition build_row (candidate_pool_size : Z) (all_keywords_list : list string)
    (item : Character.t) : M Row.t :=
  let true_keywords := Character.model_keywords item in
  candidates ← build_candidates candidate_pool_size all_keywords_list true_keywords;
  mret {| Row.id := Character.id item;
          Row.text := display_text item;
          Row.candidates := candidates;
          Row.model_keywords := true_keywords |}.

(** The characters [main] samples, from the loaded inputs. *)
Definition sampled_data (a : args) (existing_data : list existing_item)
    (model_data : list ModelItem.t) (bio_data : list BioItem.t)
    : M (list Character.t) :=
  let used_ids := build_used_ids existing_data in
  let model_lookup := build_model_lookup model_data in
  let '(available_data, _) := join used_ids model_lookup bio_data in
  select_samples (num_samples a) available_data.

(** [main], from the loaded inputs to [new_rows]. *)
Definition main (a : args) (existing_data : list existing_item)
    (model_data : list ModelItem.t) (bio_data : list BioItem.t)
    : M (list Row.t) :=
  let used_ids := build_used_ids existing_data in
  let model_lookup := build_model_lookup model_data in
  let '(available_data, all_keywords_pool) := join used_ids model_lookup bio_data in
  sampled_data ← select_samples (num_samples a) available_data;
  let all_keywords_list := elements all_keywords_pool in
  mapM (build_row (candidate_pool_size a) all_keywords_list) sampled_data.

End AddSamples.

(** ** compute_annotation_overlap.py *)

Module Overlap.

(** A record of the original data file. *)
Module OriginalInstance.
Record t : Type := mk {
  id : string;
  model_keywords : option (list string)
}.
End OriginalInstance.

(** [label_annotations]: [valid_keywords] maps each keyword the annotator
    marked to a flag the scorer never reads. *)
Module LabelAnnotations.
Record t : Type := mk {
  valid_keywords : option (gmap string bool)
}.
End LabelAnnotations.

(** A record of the annotated data file. *)
Module AnnotatedInstance.
Record t : Type := mk {
  instance_id : option string;
  id : option string;
  user_id : option string;
  label_annotations : option LabelAnnotations.t
}.
End AnnotatedInstance.

(** An entry of [per_instance].  The report lists the two keyword sets
    sorted; the sets themselves are kept here. *)
Module InstanceResult.
Record t : Type := mk {
  instance_id : string;
  model_keywords : gset string;
  annotated_keywords : gset string;
  metrics : gmap string R
}.
End InstanceResult.

Module UserResult.
Record t : Type := mk {
  total_instances : nat;
  aggregate_metrics : gmap string R;
  per_instance : list InstanceResult.t
}.
End UserResult.

Module Report.
Record t : Type := mk {
  overall_total_instances : nat;
  overall_aggregate_metrics : gmap string R;
  per_user : list (string * UserResult.t)
}.
End Report.

(** [set(instance.get('model_keywords', []))] *)
Definition extract_model_keywords (instance : OriginalInstance.t) : gset string :=
  list_to_set (default [] (OriginalInstance.model_keywords instance)).

(** The keys of a dictionary, as the [for] loop visits them. *)
Definition dict_keys {V} (d : gmap string V) : list string := (map_to_list d).*1.

Definition extract_annotated_keywords (instance : AnnotatedInstance.t) : gset string :=
  let label_annotations :=
    default (LabelAnnotations.mk None) (AnnotatedInstance.label_annotations instance) in
  let valid_keywords :=
    default ∅ (LabelAnnotations.valid_keywords label_annotations) in
  foldl (fun (keywords : gset string) keyword =>
           if bool_decide (keyword ≠ "None of the above")
           then keywords ∪ {[keyword]} else keywords)
        ∅ (dict_keys valid_keywords).

(** [bool(s)] for a set. *)
Definition nonempty (s : gset string) : bool := bool_decide (s ≠ ∅).

(** The dictionary literal [compute_metrics] returns. *)
Definition metrics_dict (precision recall f1 jaccard : R) : gmap string R :=
  <["jaccard" := jaccard]> (<["f1" := f1]> (<["recall" := recall]>
    (<["precision" := precision]> ∅))).

Definition compute_metrics (predicted actual : gset string) : gmap string R :=
  if negb (nonempty predicted) && negb (nonempty actual) then
    metrics_dict 1 1 1 1
  else
    let intersection := predicted ∩ actual in
    let union := predicted ∪ actual in
    let precision :=
      if nonempty predicted
      then (INR (size intersection) / INR (size predicted))%R else 0%R in
    let recall :=
      if nonempty actual
      then (INR (size intersection) / INR (size actual))%R else 0%R in
    let f1 :=
      if Rlt_dec 0 (precision + recall)
      then (2 * precision * recall / (precision + recall))%R else 0%R in
    let jaccard :=
      if nonempty union
      then (INR (size intersection) / INR (size union))%R else 0%R in
    metrics_dict precision recall f1 jaccard.

(** [sum(values)] *)
Definition py_sum (values : list R) : R := foldl Rplus 0%R values.

(** [aggregate[key].append(value)] on a [defaultdict(list)] *)
Definition append_value (key : string) (value : R)
    (aggregate : gmap string (list R)) : gmap string (list R) :=
  <[key := default [] (aggregate !! key) ++ [value]]> aggregate.

(** The first loop: the values of every key, in the order of [all_metrics].
    Every value of a metrics dictionary is a float, so the [isinstance]
    guard always passes. *)
Definition collect_values (all_metrics : list (gmap string R))
    : gmap string (list R) :=
  foldl (fun aggregate metrics => map_fold append_value aggregate metrics)
        ∅ all_metrics.

Definition mean (values : list R) : R :=
  (py_sum values / INR (length values))%R.

(** [(sum((x - m)**2 for x in values) / len(values)) ** 0.5] *)
Definition std (m : R) (values : list R) : R :=
  sqrt (py_sum (map (fun x => ((x - m) ^ 2)%R) values) / INR (length values)).

(** The body of the second loop. *)
Definition add_summary (key : string) (values : list R)
    (result : gmap string R) : gmap string R :=
  match values with
  | [] => result
  | _ :: _ =>
      let result := <[key +:+ "_mean" := mean values]> result in
      match result !! (key +:+ "_mean") with
      | Some m => <[key +:+ "_std" := std m values]> result
      | None => result
      end
  end.

Definition compute_aggregate_metrics (all_metrics : list (gmap string R))
    : gmap string R :=
  match all_metrics with
  | [] => ∅
  | _ :: _ => map_fold add_summary ∅ (collect_values all_metrics)
  end.

(** [{item['id']: item for item in original_data}] *)
Definition build_original_lookup (original_data : list OriginalInstance.t)
    : gmap string OriginalInstance.t :=
  foldl (fun lookup item => <[OriginalInstance.id item := item]> lookup)
        ∅ original_data.

(** One iteration of the loop of [compute_user_metrics]; the state is
    [(user_metrics, per_instance_results, total_instances)]. *)
Definition score_step (original_lookup : gmap string OriginalInstance.t)
    (st : list (gmap string R) * list InstanceResult.t * nat)
    (annotated_instance : AnnotatedInstance.t)
    : list (gmap string R) * list InstanceResult.t * nat :=
  let '(user_metrics, per_instance_results, total_instances) := st in
  let instance_id :=
    py_or (AnnotatedInstance.instance_id annotated_instance)
          (AnnotatedInstance.id annotated_instance) in
  match instance_id with
  | None => st
  | Some instance_id =>
      if negb (truthy (Some instance_id)) then st
      else
        match original_lookup !! instance_id with
        | None => st
        | Some original_instance =>
            let model_keywords := extract_model_keywords original_instance in
            let annotated_keywords := extract_annotated_keywords annotated_instance in
            let metrics := compute_metrics annotated_keywords model_keywords in
            (user_metrics ++ [metrics],
             per_instance_results ++
               [InstanceResult.mk instance_id model_keywords annotated_keywords metrics],
             S total_instances)
        end
  end.

Definition compute_user_metrics (user_annotations : list AnnotatedInstance.t)
    (original_lookup : gmap string OriginalInstance.t) : UserResult.t :=
  let '(user_metrics, per_instance_results, total_instances) :=
    foldl (score_step original_lookup) ([], [], 0) user_annotations in
  UserResult.mk total_instances (compute_aggregate_metrics user_metrics)
                per_instance_results.

(** [user_to_annotations[user_id].append(annotated_instance)] for the
    instances with a truthy [user_id]. *)
Definition group_step (user_to_annotations : gmap string (list AnnotatedInstance.t))
    (annotated_instance : AnnotatedInstance.t)
    : gmap string (list AnnotatedInstance.t) :=
  match AnnotatedInstance.user_id annotated_instance with
  | None => user_to_annotations
  | Some user_id =>
      if truthy (Some user_id)
      then <[user_id := default [] (user_to_annotations !! user_id)
                        ++ [annotated_instance]]> user_to_annotations
      else user_to_annotations
  end.

Definition group_by_user (annotated_data : list AnnotatedInstance.t)
    : gmap string (list AnnotatedInstance.t) :=
  foldl group_step ∅ annotated_data.

(** The order of [sorted] on strings. *)
Definition string_le (a b : string) : Prop := String.leb a b = true.

#[global] Instance string_le_dec a b : Decision (string_le a b).
Proof. unfold string_le. apply _. Defined.

(** [sorted(user_to_annotations.keys())] *)
Definition sorted_users (user_to_annotations : gmap string (list AnnotatedInstance.t))
    : list string :=
  merge_sort string_le (dict_keys user_to_annotations).

(** [user_results], in the order its entries are inserted. *)
Definition compute_user_results (original_lookup : gmap string OriginalInstance.t)
    (user_to_annotations : gmap string (list AnnotatedInstance.t))
    : list (string * UserResult.t) :=
  map (fun user_id =>
         (user_id,
          compute_user_metrics (default [] (user_to_annotations !! user_id))
                               original_lookup))
      (sorted_users user_to_annotations).

(** [all_instance_metrics]: the metrics of every entry of every user's
    [per_instance], user after user. *)
Definition all_instance_metrics (user_results : list (string * UserResult.t))
    : list (gmap string R) :=
  flat_map (fun ur => map InstanceResult.metrics (UserResult.per_instance ur.2))
           user_results.

(** [main], from the loaded files to the report it writes. *)
Definition main (original_data : list OriginalInstance.t)
    (annotated_data : list AnnotatedInstance.t) : Report.t :=
  let original_lookup := build_original_lookup original_data in
  let user_to_annotations := group_by_user annotated_data in
  let user_results := compute_user_results original_lookup user_to_annotations in
  let overall_metrics := compute_aggregate_metrics (all_instance_metrics user_results) in
  let total_all_instances :=
    foldl Nat.add 0 (map (fun ur => UserResult.total_instances ur.2) user_results) in
  Report.mk total_all_instances overall_metrics user_results.

End Overlap.

(** ** The statistics of the aggregator, as the specification words them *)

(** The sum of a collection of values. *)
Definition total (values : list R) : R := foldr Rplus 0%R values.

(** The arithmetic mean of [N] values: their sum divided by [N]. *)
Definition arithmetic_mean (values : list R) : R :=
  (total values / INR (length values))%R.

(** The population standard deviation: the sum of the squared deviations from
    the mean, divided by [N] (not [N - 1]), then the square root. *)
Definition population_std (values : list R) : R :=
  sqrt (total (map (fun x => ((x - arithmetic_mean values) ^ 2)%R) values)
        / INR (length values)).

(** The values present for a key: the value of every dictionary of the
    collection that has the key, in the order of the collection. *)
Definition values_present (key : string) (all_metrics : list (gmap string R))
    : list R :=
  omap (fun metrics : gmap string R => metrics !! key) all_metrics.

(** ** The instances the scorer counts *)

(** The entry of [per_instance] an annotated instance gives rise to: none
    when it has no truthy instance id or when that id is absent from the
    original lookup. *)
Definition scored_instance (original_lookup : gmap string Overlap.OriginalInstance.t)
    (annotated_instance : Overlap.AnnotatedInstance.t)
    : option Overlap.InstanceResult.t :=
  match py_or (Overlap.AnnotatedInstance.instance_id annotated_instance)
              (Overlap.AnnotatedInstance.id annotated_instance) with
  | None => None
  | Some instance_id =>
      if truthy (Some instance_id) then
        match original_lookup !! instance_id with
        | None => None
        | Some original_instance =>
            let model_keywords := Overlap.extract_model_keywords original_instance in
            let annotated_keywords :=
              Overlap.extract_annotated_keywords annotated_instance in
            Some (Overlap.InstanceResult.mk instance_id model_keywords
                    annotated_keywords
                    (Overlap.compute_metrics annotated_keywords model_keywords))
        end
      else None
  end.

(** Every scored instance of the annotated file, whoever annotated it, in
    the order of the file. *)
Definition scored_instances (original_data : list Overlap.OriginalInstance.t)
    (annotated_data : list Overlap.AnnotatedInstance.t)
    : list Overlap.InstanceResult.t :=
  omap (scored_instance (Overlap.build_original_lookup original_data))
       (filter (fun annotated_instance =>
                  truthy (Overlap.AnnotatedInstance.user_id annotated_instance) = true)
               annotated_data).

(** ** The characters available to the append flow *)

(** The joined record a biography entry gives rise to: none when no
    identifier resolves, when the identifier is excluded, when the model
    output has no entry for it, or when its English keyword list is empty. *)
Definition available_character (used_ids : gset string)
    (model_lookup : gmap string ModelItem.t) (bio_item : BioItem.t)
    : option Character.t :=
  match py_or (BioItem.character_json bio_item) (BioItem.id bio_item) with
  | None => None
  | Some char_id =>
      if truthy (Some char_id) && negb (bool_decide (char_id ∈ used_ids)) then
        match model_lookup !! char_id with
        | None => None
        | Some model_item =>
            match english_keywords model_item with
            | [] => None
            | keyword :: keywords =>
                Some (joined_record char_id bio_item (keyword :: keywords))
            end
        end
      else None
  end.

(** ** Sample inputs *)

(** Three characters with one model keyword each; annotator A marks a wrong
    keyword on the first, annotator B marks the model keyword on all three. *)
Definition example_original_data : list Overlap.OriginalInstance.t :=
  [ Overlap.OriginalInstance.mk "c1" (Some ["brave"]);
    Overlap.OriginalInstance.mk "c2" (Some ["kind"]);
    Overlap.OriginalInstance.mk "c3" (Some ["shy"]) ].

Definition example_annotation (instance_id user_id keyword : string)
    : Overlap.AnnotatedInstance.t :=
  Overlap.AnnotatedInstance.mk (Some instance_id) None (Some user_id)
    (Some (Overlap.LabelAnnotations.mk (Some {[ keyword := true ]}))).

Definition example_annotated_data : list Overlap.AnnotatedInstance.t :=
  [ example_annotation "c1" "B" "brave";
    example_annotation "c1" "A" "loyal";
    example_annotation "c2" "B" "kind";
    example_annotation "c3" "B" "shy" ].

(** An existing file with the records "a" and "b", and five characters
    "a", "c", "d", "e", "f" that have a biography and model keywords. *)
Definition example_existing_data : list AddSamples.existing_item :=
  [ AddSamples.mk_existing "a"; AddSamples.mk_existing "b" ].

Definition example_model_item (char_id : string) : ModelItem.t :=
  ModelItem.mk char_id {[ "English" := ["bold"; char_id] ]}.

Definition example_bio_item (char_id : string) : BioItem.t :=
  BioItem.mk (Some char_id) None (Some char_id) None (Some "biography").

Definition example_model_data : list ModelItem.t :=
  map example_model_item ["a"; "c"; "d"; "e"; "f"].

Definition example_bio_data : list BioItem.t :=
  map example_bio_item ["a"; "c"; "d"; "e"; "f"].

(** A reader that finds no record, to run [load_bio_file] on examples. *)
Definition no_reader (path : string) : exn + list BioItem.t := inr [].

(** Whether an error message names a path: the path occurs in the message. *)
Definition mentions (msg path : string) : bool :=
  match index 0 path msg with
  | Some _ => true
  | None => false
  end.

(** * Properties *)

(** ** The module [random] *)

Section RandomFacts.
Context {A : Type}.
Implicit Types (l pool x : list A) (g : rng).

Lemma randbelow_lt n g : 0 < n → (randbelow n g).1 < n.
Proof.
  intros Hn. destruct g as [|r g]; simpl; [done|].
  apply Nat.mod_upper_bound. lia.
Qed.

(** Every value below [n] is a possible draw. *)
Lemma randbelow_any n j g : j < n → randbelow n (j :: g) = (j, g).
Proof. intros Hj. simpl. by rewrite Nat.mod_small. Qed.

Lemma insert_cons_Permutation l j a y :
  l !! j = Some a → a :: <[j := y]> l ≡ₚ y :: l.
Proof.
  revert j. induction l as [|b l IH]; intros [|j] Hj; simplify_eq/=.
  - apply perm_swap.
  - rewrite (perm_swap b a), (IH _ Hj). apply perm_swap.
Qed.

Lemma sample_loop_spec k : ∀ pool m g,
  k ≤ m → m ≤ length pool →
  length (sample_loop pool m k g).1 = k ∧
  ∃ rest, (sample_loop pool m k g).1 ++ rest ≡ₚ take m pool.
Proof.
  induction k as [|k IH]; intros pool m g Hk Hm; simpl.
  - split; [done|]. by exists (take m pool).
  - pose proof (randbelow_lt m g ltac:(lia)) as Hj.
    destruct (randbelow m g) as [j g1]; simpl in Hj.
    destruct (lookup_lt_is_Some_2 pool j ltac:(lia)) as [a Ha].
    destruct (lookup_lt_is_Some_2 pool (m - 1) ltac:(lia)) as [y Hy].
    rewrite Ha, Hy.
    destruct (IH (<[j := y]> pool) (m - 1) g1 ltac:(lia)
                ltac:(rewrite length_insert; lia)) as [Hlen [rest Hrest]].
    destruct (sample_loop (<[j := y]> pool) (m - 1) k g1) as [result g2].
    simpl in *. split; [by rewrite Hlen|].
    exists rest. rewrite Hrest.
    replace m with (S (m - 1)) at 2 by lia.
    rewrite (take_S_r pool (m - 1) y Hy).
    destruct (decide (j = m - 1)) as [->|Hne].
    + rewrite take_insert_ge by lia. simplify_eq.
      by rewrite Permutation_cons_append.
    + rewrite take_insert_lt by lia.
      rewrite insert_cons_Permutation
        by (rewrite lookup_take_lt by lia; done).
      by rewrite Permutation_cons_append.
Qed.

(** [random.sample] returns [k] entries taken at distinct positions of the
    population whenever [0 <= k <= len(population)]. *)
Lemma sample_ok l (k : Z) g :
  (0 ≤ k ≤ Z.of_nat (length l))%Z →
  ∃ result g', sample l k g = Ok result g' ∧
    length result = Z.to_nat k ∧ ∃ rest, result ++ rest ≡ₚ l.
Proof.
  intros Hk. unfold sample. rewrite bool_decide_eq_true_2 by done.
  destruct (sample_loop_spec (Z.to_nat k) l (length l) g ltac:(lia) ltac:(lia))
    as [Hlen [rest Hrest]].
  destruct (sample_loop l (length l) (Z.to_nat k) g) as [result g'].
  exists result, g'. split; [done|]. split; [done|].
  exists rest. by rewrite firstn_all in Hrest.
Qed.

(** ... and raises [ValueError] otherwise. *)
Lemma sample_raises l (k : Z) g :
  ¬ (0 ≤ k ≤ Z.of_nat (length l))%Z →
  ∃ msg, sample l k g = Raise (ValueError msg).
Proof.
  intros Hk. unfold sample. rewrite bool_decide_eq_false_2 by done. eauto.
Qed.

Lemma shuffle_loop_Permutation i : ∀ x g, (shuffle_loop i x g).1 ≡ₚ x.
Proof.
  induction i as [|i IH]; intros x g; [done|].
  cbn [shuffle_loop]. destruct (randbelow (S (S i)) g) as [j g1].
  destruct (x !! S i) as [xi|] eqn:Hi; [|done].
  destruct (x !! j) as [xj|] eqn:Hj; [|done].
  rewrite IH. by apply Permutation_insert_swap.
Qed.

(** [random.shuffle] always succeeds and rearranges the list. *)
Lemma shuffle_ok x g :
  ∃ x' g', shuffle x g = Ok x' g' ∧ x' ≡ₚ x.
Proof.
  unfold shuffle. pose proof (shuffle_loop_Permutation (length x - 1) x g) as Hp.
  destruct (shuffle_loop (length x - 1) x g) as [x' g']. eauto.
Qed.
End RandomFacts.

Lemma bind_Ok {A B} (m : M A) (k : A → M B) g a g' :
  m g = Ok a g' → (x ← m; k x) g = k a g'.
Proof. intros H. unfold mbind, M_bind, bind. by rewrite H. Qed.

Lemma bind_Raise {A B} (m : M A) (k : A → M B) g e :
  m g = Raise e → (x ← m; k x) g = Raise e.
Proof. intros H. unfold mbind, M_bind, bind. by rewrite H. Qed.

Lemma elem_of_possible_distractors akl tk k :
  k ∈ possible_distractors akl tk ↔ k ∈ akl ∧ k ∉ tk.
Proof. unfold possible_distractors. rewrite list_elem_of_filter. tauto. Qed.

Lemma choose_distractors_spec nd akl tk g :
  (0 ≤ nd)%Z →
  ∃ ds g', choose_distractors nd akl tk g = Ok ds g' ∧
    (∃ rest, ds ++ rest ≡ₚ possible_distractors akl tk) ∧
    ((nd ≤ Z.of_nat (length (possible_distractors akl tk)))%Z →
       Z.of_nat (length ds) = nd).
Proof.
  intros Hnd. unfold choose_distractors. case_bool_decide as Hlt.
  - exists (possible_distractors akl tk), g. split; [done|]. split; [|lia].
    exists []. by rewrite app_nil_r.
  - destruct (sample_ok (possible_distractors akl tk) nd g ltac:(lia))
      as (ds & g' & Hs & Hlen & Hrest).
    exists ds, g'. split; [done|]. split; [done|]. lia.
Qed.

(** Closed decidable goals, by evaluation. *)
Ltac by_computation := apply (bool_decide_unpack _); vm_compute; exact I.

(** ** Candidate construction *)

Section CandidateFacts.
Variables (candidate_pool_size : Z) (all_keywords_list true_keywords : list string).

Let n : Z := Z.of_nat (length true_keywords).
Let possible := possible_distractors all_keywords_list true_keywords.

Lemma unshuffled_fill g :
  (n ≤ candidate_pool_size)%Z →
  ∃ distractors g',
    choose_distractors (candidate_pool_size - n) all_keywords_list true_keywords g
      = Ok distractors g' ∧
    unshuffled_candidates candidate_pool_size all_keywords_list true_keywords g
      = Ok (true_keywords ++ distractors) g' ∧
    (∃ rest, distractors ++ rest ≡ₚ possible) ∧
    ((candidate_pool_size - n ≤ Z.of_nat (length possible))%Z →
       Z.of_nat (length distractors) = (candidate_pool_size - n)%Z).
Proof.
  intros Hn. unfold unshuffled_candidates. fold n.
  rewrite bool_decide_eq_false_2 by lia.
  destruct (choose_distractors_spec (candidate_pool_size - n)
              all_keywords_list true_keywords g ltac:(lia))
    as (ds & g' & Hc & Hrest & Hlen).
  exists ds, g'. split; [done|]. split; [|done].
  by rewrite (bind_Ok _ _ _ _ _ Hc).
Qed.

Lemma unshuffled_truncate g :
  (0 ≤ candidate_pool_size < n)%Z →
  ∃ sampled g',
    unshuffled_candidates candidate_pool_size all_keywords_list true_keywords g
      = Ok sampled g' ∧
    Z.of_nat (length sampled) = candidate_pool_size ∧
    ∃ rest, sampled ++ rest ≡ₚ true_keywords.
Proof.
  intros Hn. unfold unshuffled_candidates. fold n.
  rewrite bool_decide_eq_true_2 by lia.
  destruct (sample_ok true_keywords candidate_pool_size g ltac:(lia))
    as (sampled & g' & Hs & Hlen & Hrest).
  exists sampled, g'. split; [done|]. split; [lia|done].
Qed.

Lemma unshuffled_raises g :
  (candidate_pool_size < 0)%Z →
  ∃ msg, unshuffled_candidates candidate_pool_size all_keywords_list true_keywords g
           = Raise (ValueError msg).
Proof.
  intros Hn. unfold unshuffled_candidates. fold n.
  rewrite bool_decide_eq_true_2 by lia.
  apply sample_raises. lia.
Qed.

Lemma shuffled_of_unshuffled g candidates g1 :
  unshuffled_candidates candidate_pool_size all_keywords_list true_keywords g
    = Ok candidates g1 →
  ∃ shuffled g',
    shuffled_candidates candidate_pool_size all_keywords_list true_keywords g
      = Ok shuffled g' ∧ shuffled ≡ₚ candidates.
Proof.
  intros Hu. unfold shuffled_candidates. rewrite (bind_Ok _ _ _ _ _ Hu).
  apply shuffle_ok.
Qed.

Lemma shuffled_raises g :
  (candidate_pool_size < 0)%Z →
  ∃ msg, shuffled_candidates candidate_pool_size all_keywords_list true_keywords g
           = Raise (ValueError msg).
Proof.
  intros Hn. destruct (unshuffled_raises g Hn) as [msg Hr].
  exists msg. unfold shuffled_candidates. by rewrite (bind_Raise _ _ _ _ Hr).
Qed.

Lemma add_samples_of_shuffled g shuffled g' :
  shuffled_candidates candidate_pool_size all_keywords_list true_keywords g
    = Ok shuffled g' →
  AddSamples.build_candidates candidate_pool_size all_keywords_list true_keywords g
    = Ok (shuffled ++ [sentinel]) g'.
Proof.
  intros Hs. unfold AddSamples.build_candidates. by rewrite (bind_Ok _ _ _ _ _ Hs).
Qed.

Lemma NoDup_fill distractors rest :
  NoDup true_keywords → NoDup all_keywords_list →
  distractors ++ rest ≡ₚ possible →
  NoDup (true_keywords ++ distractors).
Proof.
  intros Htk Hakl Hrest.
  assert (NoDup (distractors ++ rest)) as Hnd.
  { rewrite Hrest. by apply NoDup_filter. }
  apply NoDup_app in Hnd as (Hds & _ & _).
  apply NoDup_app. split; [done|]. split; [|done].
  intros k Hk Hd.
  assert (k ∈ possible) as Hp by (rewrite <-Hrest; set_solver).
  apply elem_of_possible_distractors in Hp. tauto.
Qed.

Lemma distractors_not_true distractors rest d :
  distractors ++ rest ≡ₚ possible → d ∈ distractors →
  d ∈ all_keywords_list ∧ d ∉ true_keywords.
Proof.
  intros Hrest Hd. apply elem_of_possible_distractors.
  fold possible. rewrite <-Hrest. set_solver.
Qed.
End CandidateFacts.

Lemma count_occ_snoc_ne (l : list string) k s :
  k ≠ s → count_occ string_dec (l ++ [s]) k = count_occ string_dec l k.
Proof.
  intros Hne. rewrite count_occ_app. simpl.
  destruct (string_dec s k); [congruence|lia].
Qed.

(** The prepare flow writes the shuffled list as it is. *)
Lemma prepare_candidates_are_shuffled candidate_pool_size all_keywords_list
    true_keywords g :
  PrepareData.build_candidates candidate_pool_size all_keywords_list true_keywords g
  = shuffled_candidates candidate_pool_size all_keywords_list true_keywords g.
Proof. reflexivity. Qed.

Example prepare_candidates_example :
  PrepareData.build_candidates 3 ["brave"; "kind"; "shy"; "loyal"; "curious"]
                               ["brave"; "kind"] [4; 1; 7]
  = Ok ["brave"; "loyal"; "kind"] [].
Proof. reflexivity. Qed.

Example append_candidates_example :
  AddSamples.build_candidates 3 ["brave"; "kind"; "shy"; "loyal"; "curious"]
                              ["brave"; "kind"] [4; 1; 7]
  = Ok ["brave"; "loyal"; "kind"; "None of the above"] [].
Proof. reflexivity. Qed.

(** No distractor is a true keyword, so a true keyword occurs in the list
    before shuffling as often as among the true keywords. *)
Lemma count_occ_fill all_keywords_list true_keywords distractors rest k :
  distractors ++ rest ≡ₚ possible_distractors all_keywords_list true_keywords →
  k ∈ true_keywords →
  count_occ string_dec (true_keywords ++ distractors) k
  = count_occ string_dec true_keywords k.
Proof.
  intros Hrest Hk. rewrite count_occ_app.
  rewrite (proj1 (count_occ_not_In string_dec distractors k)); [lia|].
  rewrite <-list_elem_of_In. intros Hd.
  by destruct (distractors_not_true _ _ _ _ _ Hrest Hd).
Qed.

(** An entry that occurs once among the true keywords and is present in a
    list holding it no more often occurs there exactly once. *)
Lemma count_occ_once (l true_keywords : list string) k :
  count_occ string_dec true_keywords k = 1 →
  count_occ string_dec l k ≤ count_occ string_dec true_keywords k →
  k ∈ l → count_occ string_dec l k = 1.
Proof.
  intros Hone Hle Hk. apply list_elem_of_In in Hk.
  apply (count_occ_In string_dec) in Hk. lia.
Qed.

(** C1 (amended).  Append flow ([add_samples.py]): when
    [n <= candidate_pool_size] and at least [candidate_pool_size - n] pool
    keywords are not true keywords, then for every state of the generator
    the run emits the shuffled list followed by the sentinel; the emitted
    list has [candidate_pool_size + 1] entries and its last entry is "None of
    the above".  Whether or not the true keywords repeat, every true keyword
    occurs among the entries before the last as often as it occurs among the
    true keywords, hence exactly once when it is not repeated there (and as
    often in the whole list unless it is the sentinel string).  With
    [all_keywords_list] an enumeration of the keyword pool without
    repetition, the entries before the last are pairwise distinct exactly
    when the true keywords are. *)
Theorem append_candidates_shape
    (candidate_pool_size : Z) (all_keywords_list true_keywords : list string)
    (g : rng) :
  (Z.of_nat (length true_keywords) ≤ candidate_pool_size)%Z →
  (candidate_pool_size - Z.of_nat (length true_keywords)
     ≤ Z.of_nat (length (possible_distractors all_keywords_list true_keywords)))%Z →
  ∃ shuffled g',
    shuffled_candidates candidate_pool_size all_keywords_list true_keywords g
      = Ok shuffled g' ∧
    AddSamples.build_candidates candidate_pool_size all_keywords_list true_keywords g
      = Ok (shuffled ++ [sentinel]) g' ∧
    Z.of_nat (length (shuffled ++ [sentinel])) = (candidate_pool_size + 1)%Z ∧
    last (shuffled ++ [sentinel]) = Some sentinel ∧
    (∀ k, k ∈ true_keywords →
          count_occ string_dec shuffled k = count_occ string_dec true_keywords k) ∧
    (∀ k, count_occ string_dec true_keywords k = 1 →
          count_occ string_dec shuffled k = 1) ∧
    (∀ k, k ∈ true_keywords → k ≠ sentinel →
          count_occ string_dec (shuffled ++ [sentinel]) k
          = count_occ string_dec true_keywords k) ∧
    (NoDup all_keywords_list → (NoDup shuffled ↔ NoDup true_keywords)).
Proof.
  intros Hn Hpool.
  destruct (unshuffled_fill candidate_pool_size all_keywords_list true_keywords g Hn)
    as (ds & g1 & _ & Hu & [rest Hrest] & Hlen).
  destruct (shuffled_of_unshuffled _ _ _ _ _ _ Hu) as (shuffled & g' & Hs & Hperm).
  exists shuffled, g'.
  assert (∀ k, k ∈ true_keywords →
               count_occ string_dec shuffled k = count_occ string_dec true_keywords k)
    as Hcount.
  { intros k Hk. rewrite (proj1 (Permutation_count_occ string_dec _ _) Hperm).
    by eapply count_occ_fill. }
  split; [done|]. split; [by apply add_samples_of_shuffled|].
  split; [|split; [by rewrite last_snoc|split; [done|split; [|split]]]].
  - rewrite length_app, Hperm, length_app. simpl. specialize (Hlen Hpool). lia.
  - intros k Hone. rewrite Hcount; [done|].
    apply list_elem_of_In, (count_occ_In string_dec). lia.
  - intros k Hk Hne. rewrite count_occ_snoc_ne by done. by apply Hcount.
  - intros Hakl. rewrite Hperm. split.
    + intros Hnd. by apply NoDup_app in Hnd as (? & _).
    + intros Htk. exact (NoDup_fill _ _ _ _ Htk Hakl Hrest).
Qed.

(** The hypotheses of [append_candidates_shape] hold for two true keywords,
    a pool of five and [candidate_pool_size = 3]. *)
Lemma append_candidates_shape_witness :
  (Z.of_nat (length ["brave"; "kind"]) ≤ 3)%Z ∧
  (3 - Z.of_nat (length ["brave"; "kind"])
     ≤ Z.of_nat (length (possible_distractors
                           ["brave"; "kind"; "shy"; "loyal"; "curious"]
                           ["brave"; "kind"])))%Z ∧
  ∃ shuffled g',
    shuffled_candidates 3 ["brave"; "kind"; "shy"; "loyal"; "curious"]
                        ["brave"; "kind"] [4; 1; 7] = Ok shuffled g' ∧
    AddSamples.build_candidates 3 ["brave"; "kind"; "shy"; "loyal"; "curious"]
                                ["brave"; "kind"] [4; 1; 7]
      = Ok (shuffled ++ [sentinel]) g' ∧
    Z.of_nat (length (shuffled ++ [sentinel])) = (3 + 1)%Z ∧
    last (shuffled ++ [sentinel]) = Some sentinel ∧
    (∀ k, k ∈ ["brave"; "kind"] →
          count_occ string_dec shuffled k
          = count_occ string_dec ["brave"; "kind"] k) ∧
    (∀ k, count_occ string_dec ["brave"; "kind"] k = 1 →
          count_occ string_dec shuffled k = 1) ∧
    (∀ k, k ∈ ["brave"; "kind"] → k ≠ sentinel →
          count_occ string_dec (shuffled ++ [sentinel]) k
          = count_occ string_dec ["brave"; "kind"] k) ∧
    (NoDup ["brave"; "kind"; "shy"; "loyal"; "curious"] →
     (NoDup shuffled ↔ NoDup ["brave"; "kind"])).
Proof.
  assert (Z.of_nat (length ["brave"; "kind"]) ≤ 3)%Z as H3 by (simpl; lia).
  assert (3 - Z.of_nat (length ["brave"; "kind"])
     ≤ Z.of_nat (length (possible_distractors
                           ["brave"; "kind"; "shy"; "loyal"; "curious"]
                           ["brave"; "kind"])))%Z as H4 by (vm_compute; discriminate).
  split; [exact H3|]. split; [exact H4|].
  exact (append_candidates_shape 3 ["brave"; "kind"; "shy"; "loyal"; "curious"]
           ["brave"; "kind"] [4; 1; 7] H3 H4).
Defined.

(** C1, as stated, fails on duplicated true keywords: with
    [true_keywords = ["a"; "a"]], the pool [{"a"}] and
    [candidate_pool_size = 2] the hypotheses of the claim hold ([n = 2 <= 2],
    no distractor is needed), and the append flow emits
    [["a"; "a"; "None of the above"]], in which the true keyword "a" occurs
    twice. *)
Lemma append_candidates_duplicate_keyword :
  (Z.of_nat (length ["a"; "a"]) ≤ 2)%Z ∧
  (2 - Z.of_nat (length ["a"; "a"])
     ≤ Z.of_nat (length (possible_distractors ["a"] ["a"; "a"])))%Z ∧
  AddSamples.build_candidates 2 ["a"] ["a"; "a"] []
    = Ok ["a"; "a"; sentinel] [] ∧
  "a" ∈ ["a"; "a"] ∧
  count_occ string_dec ["a"; "a"; sentinel] "a" = 2 ∧
  ¬ NoDup ["a"; "a"].
Proof.
  split; [simpl; lia|]. split; [vm_compute; discriminate|].
  split; [reflexivity|]. split; [by_computation|]. split; [reflexivity|].
  by_computation.
Qed.

(** C2 (amended).  When the number of true keywords exceeds a non-negative
    [candidate_pool_size], for every state of the generator the shuffled list
    of the run has exactly [candidate_pool_size] entries, taken at distinct
    positions of the true-keyword sequence (so each is one of its elements);
    the append flow emits that list followed by the sentinel, which makes
    [candidate_pool_size + 1] entries. *)
Theorem truncated_candidates_shape
    (candidate_pool_size : Z) (all_keywords_list true_keywords : list string)
    (g : rng) :
  (0 ≤ candidate_pool_size < Z.of_nat (length true_keywords))%Z →
  ∃ shuffled g',
    shuffled_candidates candidate_pool_size all_keywords_list true_keywords g
      = Ok shuffled g' ∧
    Z.of_nat (length shuffled) = candidate_pool_size ∧
    (∀ k, k ∈ shuffled → k ∈ true_keywords) ∧
    (∃ dropped, shuffled ++ dropped ≡ₚ true_keywords) ∧
    AddSamples.build_candidates candidate_pool_size all_keywords_list true_keywords g
      = Ok (shuffled ++ [sentinel]) g' ∧
    Z.of_nat (length (shuffled ++ [sentinel])) = (candidate_pool_size + 1)%Z.
Proof.
  intros Hn.
  destruct (unshuffled_truncate candidate_pool_size all_keywords_list
              true_keywords g Hn) as (sampled & g1 & Hu & Hlen & [rest Hrest]).
  destruct (shuffled_of_unshuffled _ _ _ _ _ _ Hu) as (shuffled & g' & Hs & Hperm).
  exists shuffled, g'. split; [done|].
  split; [by rewrite Hperm|]. split; [|split; [|split]].
  - intros k Hk. rewrite <-Hrest, <-Hperm. apply elem_of_app. by left.
  - exists rest. by rewrite Hperm.
  - by apply add_samples_of_shuffled.
  - rewrite length_app, Hperm. simpl. lia.
Qed.

(** The hypothesis of [truncated_candidates_shape] holds for four true
    keywords and [candidate_pool_size = 3]. *)
Lemma truncated_candidates_shape_witness :
  (0 ≤ 3 < Z.of_nat (length ["shy"; "brave"; "loyal"; "curious"]))%Z ∧
  ∃ shuffled g',
    shuffled_candidates 3 ["brave"; "kind"; "shy"; "loyal"; "curious"]
                        ["shy"; "brave"; "loyal"; "curious"] [2; 5; 1; 1]
      = Ok shuffled g' ∧
    Z.of_nat (length shuffled) = 3%Z ∧
    (∀ k, k ∈ shuffled → k ∈ ["shy"; "brave"; "loyal"; "curious"]) ∧
    (∃ dropped, shuffled ++ dropped ≡ₚ ["shy"; "brave"; "loyal"; "curious"]) ∧
    AddSamples.build_candidates 3 ["brave"; "kind"; "shy"; "loyal"; "curious"]
                                ["shy"; "brave"; "loyal"; "curious"] [2; 5; 1; 1]
      = Ok (shuffled ++ [sentinel]) g' ∧
    Z.of_nat (length (shuffled ++ [sentinel])) = (3 + 1)%Z.
Proof.
  assert (0 ≤ 3 < Z.of_nat (length ["shy"; "brave"; "loyal"; "curious"]))%Z
    as H1 by (simpl; lia).
  split; [exact H1|].
  exact (truncated_candidates_shape 3 ["brave"; "kind"; "shy"; "loyal"; "curious"]
           ["shy"; "brave"; "loyal"; "curious"] [2; 5; 1; 1] H1).
Defined.

(** C2, as stated, fails in the append flow: with
    [true_keywords = ["a"; "b"]] and [candidate_pool_size = 1] (so [n = 2 > 1])
    the emitted list is [["a"; "None of the above"]]: two entries, not one,
    and its last entry is not a true keyword. *)
Lemma append_truncation_keeps_sentinel :
  (Z.of_nat (length ["a"; "b"]) > 1)%Z ∧
  AddSamples.build_candidates 1 ["a"; "b"] ["a"; "b"] []
    = Ok ["a"; sentinel] [] ∧
  Z.of_nat (length ["a"; sentinel]) ≠ 1%Z ∧
  sentinel ∈ ["a"; sentinel] ∧
  sentinel ∉ ["a"; "b"].
Proof.
  split; [simpl; lia|]. split; [reflexivity|]. split; [simpl; lia|].
  split; by_computation.
Qed.

(** C4 (amended).  For every state of the generator the run either raises,
    which happens only for a negative [candidate_pool_size], or produces a
    shuffled list, emitted as it is by the prepare flow and with the sentinel
    after it by the append flow.  Whether or not the true keywords repeat,
    no true keyword occurs in the shuffled list more often than among the
    true keywords; so a true keyword that is not repeated there and survives
    truncation occurs exactly once, and so it does in the list the append
    flow emits unless it is the sentinel string.  Without truncation the
    shuffled list is a rearrangement of the true keywords followed by the
    chosen distractors, every true keyword is present as often as among the
    true keywords, and every distractor is a pool keyword that is not a true
    keyword. *)
Theorem true_keywords_once_distractors_apart
    (candidate_pool_size : Z) (all_keywords_list true_keywords : list string)
    (g : rng) :
  match shuffled_candidates candidate_pool_size all_keywords_list true_keywords g with
  | Raise _ => (candidate_pool_size < 0)%Z
  | Ok shuffled g' =>
      PrepareData.build_candidates candidate_pool_size all_keywords_list
                                   true_keywords g
        = Ok shuffled g' ∧
      AddSamples.build_candidates candidate_pool_size all_keywords_list
                                  true_keywords g
        = Ok (shuffled ++ [sentinel]) g' ∧
      (∀ k, k ∈ true_keywords →
            count_occ string_dec shuffled k ≤ count_occ string_dec true_keywords k) ∧
      (∀ k, count_occ string_dec true_keywords k = 1 → k ∈ shuffled →
            count_occ string_dec shuffled k = 1) ∧
      (∀ k, count_occ string_dec true_keywords k = 1 → k ∈ shuffled →
            k ≠ sentinel →
            count_occ string_dec (shuffled ++ [sentinel]) k = 1) ∧
      ((Z.of_nat (length true_keywords) ≤ candidate_pool_size)%Z →
       ∃ distractors g1,
         choose_distractors (candidate_pool_size - Z.of_nat (length true_keywords))
                            all_keywords_list true_keywords g
           = Ok distractors g1 ∧
         shuffled ≡ₚ true_keywords ++ distractors ∧
         (∀ k, k ∈ true_keywords → k ∈ shuffled) ∧
         (∀ k, k ∈ true_keywords →
               count_occ string_dec shuffled k
               = count_occ string_dec true_keywords k) ∧
         (∀ d, d ∈ distractors → d ∈ all_keywords_list ∧ d ∉ true_keywords))
  end.
Proof.
  destruct (Z_lt_le_dec candidate_pool_size 0) as [Hneg|Hpos].
  { destruct (shuffled_raises candidate_pool_size all_keywords_list
                true_keywords g Hneg) as [msg ->]. done. }
  destruct (Z_lt_le_dec candidate_pool_size (Z.of_nat (length true_keywords)))
    as [Hlt|Hle].
  - destruct (unshuffled_truncate candidate_pool_size all_keywords_list
                true_keywords g ltac:(lia)) as (sampled & g1 & Hu & _ & [rest Hrest]).
    destruct (shuffled_of_unshuffled _ _ _ _ _ _ Hu) as (shuffled & g' & Hs & Hperm).
    unfold PrepareData.build_candidates. rewrite Hs.
    assert (∀ k, count_occ string_dec shuffled k
                 ≤ count_occ string_dec true_keywords k) as Hbound.
    { intros k. rewrite (proj1 (Permutation_count_occ string_dec _ _) Hperm).
      rewrite <-(proj1 (Permutation_count_occ string_dec _ _) Hrest), count_occ_app.
      lia. }
    split; [done|]. split; [by apply add_samples_of_shuffled|].
    split; [intros; apply Hbound|].
    split; [intros k Hone Hk; by eapply count_occ_once|].
    split; [|lia].
    intros k Hone Hk Hne. rewrite count_occ_snoc_ne by done.
    by eapply count_occ_once.
  - destruct (unshuffled_fill candidate_pool_size all_keywords_list true_keywords
                g Hle) as (ds & g1 & Hc & Hu & [rest Hrest] & _).
    destruct (shuffled_of_unshuffled _ _ _ _ _ _ Hu) as (shuffled & g' & Hs & Hperm).
    unfold PrepareData.build_candidates. rewrite Hs.
    assert (∀ k, k ∈ true_keywords →
                 count_occ string_dec shuffled k
                 = count_occ string_dec true_keywords k) as Hcount.
    { intros k Hk. rewrite (proj1 (Permutation_count_occ string_dec _ _) Hperm).
      by eapply count_occ_fill. }
    assert (∀ k, count_occ string_dec true_keywords k = 1 →
                 count_occ string_dec shuffled k = 1) as Honce.
    { intros k Hone. rewrite Hcount; [done|].
      apply list_elem_of_In, (count_occ_In string_dec). lia. }
    split; [done|]. split; [by apply add_samples_of_shuffled|].
    split; [intros k Hk; by rewrite Hcount|].
    split; [intros k Hone _; by apply Honce|].
    split; [intros k Hone _ Hne; rewrite count_occ_snoc_ne by done; by apply Honce|].
    intros _. exists ds, g1. split; [done|]. split; [done|]. split; [|split; [done|]].
    + intros k Hk. rewrite Hperm. apply elem_of_app. by left.
    + intros d Hd. by eapply distractors_not_true.
Qed.

(** C4, as stated, fails on duplicated true keywords: truncating
    [["a"; "a"; "b"]] to [candidate_pool_size = 2] with the draws [0], [1]
    keeps the entries at positions 0 and 1, so the true keyword "a" survives
    and occurs twice in the list either flow emits. *)
Lemma truncation_keeps_duplicate_keyword :
  PrepareData.build_candidates 2 ["a"; "b"] ["a"; "a"; "b"] [0; 1]
    = Ok ["a"; "a"] [] ∧
  AddSamples.build_candidates 2 ["a"; "b"] ["a"; "a"; "b"] [0; 1]
    = Ok ["a"; "a"; sentinel] [] ∧
  "a" ∈ ["a"; "a"; "b"] ∧
  count_occ string_dec ["a"; "a"] "a" = 2 ∧
  count_occ string_dec ["a"; "a"; sentinel] "a" = 2.
Proof.
  split; [reflexivity|]. split; [reflexivity|]. split; [by_computation|].
  split; reflexivity.
Qed.

(** ** The join and the sampler of the append flow *)

Section AppendJoin.
Variables (used_ids : gset string) (model_lookup : gmap string ModelItem.t).

(** What the join guarantees of every character it lets through: its
    identifier is not excluded, and the model output has a non-empty
    English keyword list for it. *)
Let available_ok (item : Character.t) : Prop :=
  (Character.id item ∉ used_ids) ∧
  Character.model_keywords item ≠ [] ∧
  ∃ model_item, model_lookup !! Character.id item = Some model_item ∧
                english_keywords model_item = Character.model_keywords item.

Lemma append_join_step_ok st bio_item :
  Forall available_ok st.1 →
  Forall available_ok (AddSamples.join_step used_ids model_lookup st bio_item).1.
Proof.
  destruct st as [available_data pool]. simpl. intros Hst.
  destruct (py_or _ _) as [char_id|]; [|done].
  destruct (negb _ || _) eqn:Hskip; [done|].
  apply orb_false_iff in Hskip as [_ Hused].
  apply bool_decide_eq_false in Hused.
  destruct (model_lookup !! char_id) as [model_item|] eqn:Hlookup; [|done].
  destruct (english_keywords model_item) as [|kw kws] eqn:Hkw; [done|].
  simpl. apply Forall_app. split; [done|].
  apply Forall_singleton. repeat split; simpl; [done|done|].
  exists model_item. by rewrite Hkw.
Qed.

Lemma append_join_ok bio_data :
  Forall available_ok (AddSamples.join used_ids model_lookup bio_data).1.
Proof.
  unfold AddSamples.join.
  assert (Forall available_ok (([], ∅) : list Character.t * gset string).1)
    as Hinit by constructor.
  revert Hinit. generalize (([], ∅) : list Character.t * gset string).
  induction bio_data as [|bio_item bio_data IH]; intros st Hst; [done|].
  simpl. apply IH. by apply append_join_step_ok.
Qed.
End AppendJoin.

Lemma append_join_step_available used_ids model_lookup available_data pool bio_item :
  (AddSamples.join_step used_ids model_lookup (available_data, pool) bio_item).1
  = available_data ++
    match available_character used_ids model_lookup bio_item with
    | Some item => [item]
    | None => []
    end.
Proof.
  unfold AddSamples.join_step, available_character.
  destruct (py_or _ _) as [char_id|]; [|simpl; by rewrite app_nil_r].
  destruct (truthy (Some char_id)); cbn [negb orb andb];
    [|simpl; by rewrite app_nil_r].
  destruct (bool_decide (char_id ∈ used_ids)); cbn [negb];
    [simpl; by rewrite app_nil_r|].
  destruct (model_lookup !! char_id) as [model_item|];
    [|simpl; by rewrite app_nil_r].
  destruct (english_keywords model_item); simpl; [by rewrite app_nil_r|done].
Qed.

(** The available characters are the biography entries that pass the join,
    in the order of the biography file. *)
Lemma append_join_available used_ids model_lookup bio_data :
  (AddSamples.join used_ids model_lookup bio_data).1
  = omap (available_character used_ids model_lookup) bio_data.
Proof.
  unfold AddSamples.join.
  change (omap (available_character used_ids model_lookup) bio_data)
    with ((([], ∅) : list Character.t * gset string).1
          ++ omap (available_character used_ids model_lookup) bio_data).
  generalize (([], ∅) : list Character.t * gset string).
  induction bio_data as [|bio_item bio_data IH]; intros [available_data pool].
  - simpl. by rewrite app_nil_r.
  - cbn [foldl]. rewrite IH.
    destruct (AddSamples.join_step _ _ _ _) as [available_data' pool'] eqn:Hstep.
    pose proof (append_join_step_available used_ids model_lookup available_data
                  pool bio_item) as Hav.
    rewrite Hstep in Hav. simpl in *. rewrite Hav.
    destruct (available_character used_ids model_lookup bio_item);
      by rewrite <-List.app_assoc.
Qed.

Lemma elem_of_build_used_ids existing_data char_id :
  char_id ∈ AddSamples.build_used_ids existing_data ↔
  ∃ item, item ∈ existing_data ∧ AddSamples.existing_id item = char_id.
Proof.
  unfold AddSamples.build_used_ids.
  rewrite elem_of_list_to_set, list_elem_of_fmap.
  split; intros (item & H1 & H2); exists item; by split.
Qed.

(** [main] builds its rows from the characters [sampled_data] returns. *)
Lemma append_main_rows a existing_data model_data bio_data g :
  AddSamples.main a existing_data model_data bio_data g =
  (sampled ← AddSamples.sampled_data a existing_data model_data bio_data;
   mapM (AddSamples.build_row (AddSamples.candidate_pool_size a)
           (elements (AddSamples.join (AddSamples.build_used_ids existing_data)
                        (build_model_lookup model_data) bio_data).2))
        sampled) g.
Proof.
  unfold AddSamples.main, AddSamples.sampled_data.
  by destruct (AddSamples.join _ _ _).
Qed.

(** C7 (amended).  Append flow, for every state of the generator.  The
    available characters are the biography entries that resolve to a
    non-excluded identifier with a non-empty English keyword list in the
    model output, in the order of the biography file.  Sampling raises
    exactly when [num_samples] is negative.  Otherwise no selected character
    has the identifier of a record of the existing file; the selected
    characters are taken at distinct positions of the available ones; and
    when at least [num_samples] characters are available, exactly
    [num_samples] are selected. *)
Theorem append_sampling_excludes_used
    (a : AddSamples.args) (existing_data : list AddSamples.existing_item)
    (model_data : list ModelItem.t) (bio_data : list BioItem.t) (g : rng) :
  (AddSamples.join (AddSamples.build_used_ids existing_data)
                   (build_model_lookup model_data) bio_data).1
  = omap (available_character (AddSamples.build_used_ids existing_data)
                              (build_model_lookup model_data)) bio_data ∧
  match AddSamples.sampled_data a existing_data model_data bio_data g with
  | Raise _ => (AddSamples.num_samples a < 0)%Z
  | Ok sampled g' =>
      (0 ≤ AddSamples.num_samples a)%Z ∧
      (∀ item, item ∈ sampled →
         (Character.id item ∉ AddSamples.build_used_ids existing_data) ∧
         ∀ old, old ∈ existing_data →
                AddSamples.existing_id old ≠ Character.id item) ∧
      (∃ rest,
         sampled ++ rest ≡ₚ
           omap (available_character (AddSamples.build_used_ids existing_data)
                                      (build_model_lookup model_data)) bio_data) ∧
      ((AddSamples.num_samples a
          ≤ Z.of_nat (length (omap (available_character
                                      (AddSamples.build_used_ids existing_data)
                                      (build_model_lookup model_data)) bio_data)))%Z →
       Z.of_nat (length sampled) = AddSamples.num_samples a)
  end.
Proof.
  split; [apply append_join_available|].
  rewrite <-append_join_available. unfold AddSamples.sampled_data.
  pose proof (append_join_ok (AddSamples.build_used_ids existing_data)
                (build_model_lookup model_data) bio_data) as Hok.
  destruct (AddSamples.join _ _ _) as [available_data pool]. simpl in *.
  assert (match AddSamples.select_samples (AddSamples.num_samples a)
                  available_data g with
          | Raise _ => (AddSamples.num_samples a < 0)%Z
          | Ok sampled g' =>
              (0 ≤ AddSamples.num_samples a)%Z ∧
              (∃ rest, sampled ++ rest ≡ₚ available_data) ∧
              ((AddSamples.num_samples a ≤ Z.of_nat (length available_data))%Z →
               Z.of_nat (length sampled) = AddSamples.num_samples a)
          end) as Hsel.
  { unfold AddSamples.select_samples. case_bool_decide as Hfew.
    - split; [lia|]. split; [|lia]. exists []. by rewrite app_nil_r.
    - destruct (Z_lt_le_dec (AddSamples.num_samples a) 0) as [Hneg|Hpos].
      + destruct (sample_raises available_data (AddSamples.num_samples a) g
                    ltac:(lia)) as [msg ->]. done.
      + destruct (sample_ok available_data (AddSamples.num_samples a) g ltac:(lia))
          as (sampled & g' & -> & Hlen & Hrest).
        split; [done|]. split; [done|]. lia. }
  destruct (AddSamples.select_samples _ available_data g) as [sampled g'|e];
    [|done].
  destruct Hsel as (Hk & [rest Hrest] & Hlen).
  split; [done|]. split; [|split; [by exists rest|done]].
  intros item Hitem.
  assert (item ∈ available_data) as Hav.
  { rewrite <-Hrest. apply elem_of_app. by left. }
  rewrite Forall_forall in Hok. destruct (Hok item Hav) as [Hnot _].
  split; [done|]. intros old Hold Heq. apply Hnot.
  apply elem_of_build_used_ids. by exists old.
Qed.

(** C7, as stated, fails for a negative sample count: on the sample input
    four characters are available, which is at least [-1], yet requesting
    [-1] samples selects nothing: [random.sample] raises [ValueError],
    whatever the state of the generator. *)
Lemma append_sampling_negative_count :
  length (omap (available_character
                  (AddSamples.build_used_ids example_existing_data)
                  (build_model_lookup example_model_data)) example_bio_data) = 4 ∧
  (-1 ≤ 4)%Z ∧
  (∀ g, AddSamples.sampled_data (AddSamples.mk_args (-1) 20) example_existing_data
          example_model_data example_bio_data g
        = Raise (ValueError "Sample larger than population or is negative")) ∧
  (∀ g sampled g',
     AddSamples.sampled_data (AddSamples.mk_args (-1) 20) example_existing_data
       example_model_data example_bio_data g ≠ Ok sampled g').
Proof.
  assert (∀ g, AddSamples.sampled_data (AddSamples.mk_args (-1) 20)
                 example_existing_data example_model_data example_bio_data g
               = Raise (ValueError "Sample larger than population or is negative"))
    as Hraise by (intros g; reflexivity).
  split; [reflexivity|]. split; [lia|]. split; [done|].
  intros g sampled g'. by rewrite Hraise.
Qed.

(** On the sample input the draws 1, 1, 1 select "d", "f" and "e" among the
    available "c", "d", "e", "f". *)
Example append_sampling_example :
  map Character.id
      (AddSamples.join (AddSamples.build_used_ids example_existing_data)
                       (build_model_lookup example_model_data) example_bio_data).1
  = ["c"; "d"; "e"; "f"] ∧
  ∃ sampled,
    AddSamples.sampled_data (AddSamples.mk_args 3 20) example_existing_data
      example_model_data example_bio_data [1; 1; 1] = Ok sampled [] ∧
    map Character.id sampled = ["d"; "f"; "e"].
Proof. split; [reflexivity|]. eexists. split; reflexivity. Qed.

(** Every element of a [mapM] result is an outcome of the mapped
    computation on the matching input. *)
Lemma mapM_outcomes {A B} (f : A → M B) (xs : list A) :
  ∀ g ys g', mapM f xs g = Ok ys g' →
             Forall2 (fun x y => ∃ g1 g2, f x g1 = Ok y g2) xs ys.
Proof.
  induction xs as [|x xs IH]; intros g ys g' Hm; simpl in Hm.
  - unfold ret in Hm. simplify_eq. constructor.
  - unfold bind in Hm. destruct (f x g) as [y g1|] eqn:Hy; [|done].
    destruct (mapM f xs g1) as [ys' g2|] eqn:Hys; [|done].
    unfold ret in Hm. simplify_eq. constructor; [by exists g, g1|].
    by eapply IH.
Qed.

(** The rows of the append flow: one per sampled character, with its
    identifier and model keywords, and with a candidate list built from
    [list(all_keywords_pool)], which has no repetition. *)
Lemma append_main_rows_built a existing_data model_data bio_data g rows g' :
  AddSamples.main a existing_data model_data bio_data g = Ok rows g' →
  ∃ sampled g1,
    AddSamples.sampled_data a existing_data model_data bio_data g = Ok sampled g1 ∧
    NoDup (elements (AddSamples.join (AddSamples.build_used_ids existing_data)
                       (build_model_lookup model_data) bio_data).2) ∧
    Forall2
      (fun item row =>
         Row.id row = Character.id item ∧
         Row.model_keywords row = Character.model_keywords item ∧
         ∃ g2 g3,
           AddSamples.build_candidates (AddSamples.candidate_pool_size a)
             (elements (AddSamples.join (AddSamples.build_used_ids existing_data)
                          (build_model_lookup model_data) bio_data).2)
             (Character.model_keywords item) g2
           = Ok (Row.candidates row) g3)
      sampled rows.
Proof.
  rewrite append_main_rows. intros Hmain.
  unfold mbind, M_bind, bind in Hmain.
  destruct (AddSamples.sampled_data a existing_data model_data bio_data g)
    as [sampled g1|] eqn:Hsampled; [|done].
  exists sampled, g1. split; [done|]. split; [apply NoDup_elements|].
  apply mapM_outcomes in Hmain.
  eapply Forall2_impl; [exact Hmain|].
  intros item row (g2 & g3 & Hrow). unfold AddSamples.build_row in Hrow.
  unfold mbind, M_bind, bind in Hrow.
  destruct (AddSamples.build_candidates _ _ _ g2) as [candidates g4|] eqn:Hc; [|done].
  unfold mret, M_ret, ret in Hrow. simplify_eq. simpl.
  split; [done|]. split; [done|]. by exists g2, g3.
Qed.

(** ** Loading a biography file *)

Section LoadBioFileFacts.
Context {records : Type}.
Variables load_jsonl json_load read_csv_records : string → exn + records.

(** The three supported extensions reach their readers. *)
Lemma load_bio_file_jsonl path :
  endswith path ".jsonl" = true →
  load_bio_file load_jsonl json_load read_csv_records path = load_jsonl path.
Proof. intros H. unfold load_bio_file. by rewrite H. Qed.

Lemma load_bio_file_json path :
  endswith path ".jsonl" = false → endswith path ".json" = true →
  load_bio_file load_jsonl json_load read_csv_records path = json_load path.
Proof. intros H1 H2. unfold load_bio_file. by rewrite H1, H2. Qed.

Lemma load_bio_file_csv path :
  endswith path ".jsonl" = false → endswith path ".json" = false →
  endswith path ".csv" = true →
  load_bio_file load_jsonl json_load read_csv_records path = read_csv_records path.
Proof. intros H1 H2 H3. unfold load_bio_file. by rewrite H1, H2, H3. Qed.

(** C8 (amended).  For every path that ends in none of [.jsonl], [.json],
    [.csv], loading fails with a [ValueError] whose message is the fixed
    text "Unknown bio file format", whatever the path. *)
Theorem load_bio_file_unsupported (bio_file_path : string) :
  endswith bio_file_path ".jsonl" = false →
  endswith bio_file_path ".json" = false →
  endswith bio_file_path ".csv" = false →
  load_bio_file load_jsonl json_load read_csv_records bio_file_path
    = inl (ValueError "Unknown bio file format").
Proof. intros H1 H2 H3. unfold load_bio_file. by rewrite H1, H2, H3. Qed.
End LoadBioFileFacts.

(** The hypotheses of [load_bio_file_unsupported] hold for a [.txt] path. *)
Lemma load_bio_file_unsupported_witness :
  endswith "bios/characters.txt" ".jsonl" = false ∧
  endswith "bios/characters.txt" ".json" = false ∧
  endswith "bios/characters.txt" ".csv" = false ∧
  load_bio_file no_reader no_reader no_reader "bios/characters.txt"
    = inl (ValueError "Unknown bio file format").
Proof.
  split; [reflexivity|]. split; [reflexivity|]. split; [reflexivity|].
  apply (load_bio_file_unsupported no_reader no_reader no_reader
           "bios/characters.txt"); reflexivity.
Defined.

(** C8, as stated, fails: the error raised for "bios/characters.txt" carries
    the message "Unknown bio file format", in which the rejected path does
    not occur. *)
Lemma load_bio_file_message_omits_path :
  endswith "bios/characters.txt" ".jsonl" = false ∧
  endswith "bios/characters.txt" ".json" = false ∧
  endswith "bios/characters.txt" ".csv" = false ∧
  ∃ msg,
    load_bio_file no_reader no_reader no_reader "bios/characters.txt"
      = inl (ValueError msg) ∧
    mentions msg "bios/characters.txt" = false.
Proof.
  split; [reflexivity|]. split; [reflexivity|]. split; [reflexivity|].
  exists "Unknown bio file format". split; reflexivity.
Qed.

(** ** Annotated keywords *)

Lemma elem_of_dict_keys {V} (d : gmap string V) k :
  k ∈ Overlap.dict_keys d ↔ is_Some (d !! k).
Proof.
  unfold Overlap.dict_keys. rewrite list_elem_of_fmap. split.
  - intros ([k' v] & -> & Hin). apply elem_of_map_to_list in Hin. by exists v.
  - intros [v Hv]. exists (k, v). split; [done|]. by apply elem_of_map_to_list.
Qed.

Lemma elem_of_keep_non_sentinel (keys : list string) (keywords : gset string) k :
  k ∈ foldl (fun (keywords : gset string) keyword =>
               if bool_decide (keyword ≠ "None of the above")
               then keywords ∪ {[keyword]} else keywords) keywords keys
  ↔ k ∈ keywords ∨ (k ∈ keys ∧ k ≠ "None of the above").
Proof.
  revert keywords. induction keys as [|key keys IH]; intros keywords; simpl.
  - split; [by left|]. intros [?|[Hin _]]; [done|]. by apply elem_of_nil in Hin.
  - rewrite IH, elem_of_cons. case_bool_decide as Hkey.
    + rewrite elem_of_union, elem_of_singleton. split.
      * intros [[?| ->]|[? ?]]; auto.
      * intros [?|[[ ->|?] ?]]; auto.
    + split.
      * intros [?|[? ?]]; auto.
      * intros [?|[[ ->|?] ?]]; auto. by destruct Hkey.
Qed.

(** C9.  A keyword is among the annotated keywords used for scoring exactly
    when it is a key of [label_annotations.valid_keywords] and is not the
    sentinel "None of the above"; an absent [label_annotations] or
    [valid_keywords] counts as an empty mapping. *)
Theorem annotated_keywords_are_keys_without_sentinel
    (instance : Overlap.AnnotatedInstance.t) (keyword : string) :
  keyword ∈ Overlap.extract_annotated_keywords instance ↔
  (∃ label_annotations valid_keywords,
     Overlap.AnnotatedInstance.label_annotations instance = Some label_annotations ∧
     Overlap.LabelAnnotations.valid_keywords label_annotations = Some valid_keywords ∧
     is_Some (valid_keywords !! keyword)) ∧
  keyword ≠ "None of the above".
Proof.
  unfold Overlap.extract_annotated_keywords.
  rewrite elem_of_keep_non_sentinel, elem_of_dict_keys.
  destruct instance as [iid id uid [[[vk|]]|]]; simpl.
  - split.
    + intros [Hin|[Hk Hne]]; [by apply not_elem_of_empty in Hin|].
      split; [|done]. by exists (Overlap.LabelAnnotations.mk (Some vk)), vk.
    + intros [(la & vk' & Hla & Hvk & Hk) Hne]. right. by simplify_eq/=.
  - rewrite lookup_empty. split.
    + intros [Hin|[[? ?] _]]; [by apply not_elem_of_empty in Hin|done].
    + intros [(la & vk' & Hla & Hvk & Hk) Hne]. by simplify_eq/=.
  - rewrite lookup_empty. split.
    + intros [Hin|[[? ?] _]]; [by apply not_elem_of_empty in Hin|done].
    + intros [(la & vk' & Hla & Hvk & Hk) Hne]. by simplify_eq/=.
Qed.

(** ** Overlap metrics *)

Section MetricsDict.
Variables precision recall f1 jaccard : R.

Lemma metrics_dict_precision :
  Overlap.metrics_dict precision recall f1 jaccard !! "precision" = Some precision.
Proof. reflexivity. Qed.

Lemma metrics_dict_recall :
  Overlap.metrics_dict precision recall f1 jaccard !! "recall" = Some recall.
Proof. reflexivity. Qed.

Lemma metrics_dict_f1 :
  Overlap.metrics_dict precision recall f1 jaccard !! "f1" = Some f1.
Proof. reflexivity. Qed.

Lemma metrics_dict_jaccard :
  Overlap.metrics_dict precision recall f1 jaccard !! "jaccard" = Some jaccard.
Proof. reflexivity. Qed.
End MetricsDict.

Lemma nonempty_true (s : gset string) : s ≠ ∅ → Overlap.nonempty s = true.
Proof. intros H. unfold Overlap.nonempty. by apply bool_decide_eq_true. Qed.

Lemma nonempty_false (s : gset string) : s = ∅ → Overlap.nonempty s = false.
Proof. intros H. unfold Overlap.nonempty. apply bool_decide_eq_false. by intros []. Qed.

Lemma nonempty_empty : Overlap.nonempty ∅ = false.
Proof. by apply nonempty_false. Qed.

Section OverlapMetrics.
Local Open Scope R_scope.

(** [compute_metrics] outside the case of two empty sets. *)
Lemma compute_metrics_not_both_empty (predicted actual : gset string) :
  ¬ (predicted = ∅ ∧ actual = ∅) →
  Overlap.compute_metrics predicted actual =
  let precision :=
    if Overlap.nonempty predicted
    then INR (size (predicted ∩ actual)) / INR (size predicted) else 0 in
  let recall :=
    if Overlap.nonempty actual
    then INR (size (predicted ∩ actual)) / INR (size actual) else 0 in
  Overlap.metrics_dict precision recall
    (if Rlt_dec 0 (precision + recall)
     then 2 * precision * recall / (precision + recall) else 0)
    (if Overlap.nonempty (predicted ∪ actual)
     then INR (size (predicted ∩ actual)) / INR (size (predicted ∪ actual)) else 0).
Proof.
  intros Hne. unfold Overlap.compute_metrics.
  destruct (decide (predicted = ∅)) as [Hp|Hp];
    destruct (decide (actual = ∅)) as [Ha|Ha]; [tauto| | |];
    rewrite ?(nonempty_true _ Hp), ?(nonempty_false _ Hp),
            ?(nonempty_true _ Ha), ?(nonempty_false _ Ha); reflexivity.
Qed.

Lemma compute_metrics_both_empty :
  Overlap.compute_metrics ∅ ∅ = Overlap.metrics_dict 1 1 1 1.
Proof. unfold Overlap.compute_metrics. by rewrite nonempty_empty. Qed.

(** C5.  [compute_metrics] returns a value for each of [precision],
    [recall], [f1], [jaccard]: all four are 1 when both sets are empty;
    otherwise precision is [|predicted ∩ actual| / |predicted|] for a
    non-empty [predicted] and 0 for an empty one, recall is
    [|predicted ∩ actual| / |actual|] for a non-empty [actual] and 0 for an
    empty one, f1 is [2·precision·recall / (precision + recall)] when
    [precision + recall > 0] and 0 otherwise, and jaccard is
    [|predicted ∩ actual| / |predicted ∪ actual|] for a non-empty union and 0
    for an empty one. *)
Theorem compute_metrics_formulas (predicted actual : gset string) :
  ∃ precision recall f1 jaccard : R,
    Overlap.compute_metrics predicted actual !! "precision" = Some precision ∧
    Overlap.compute_metrics predicted actual !! "recall" = Some recall ∧
    Overlap.compute_metrics predicted actual !! "f1" = Some f1 ∧
    Overlap.compute_metrics predicted actual !! "jaccard" = Some jaccard ∧
    (predicted = ∅ ∧ actual = ∅ →
       precision = 1 ∧ recall = 1 ∧ f1 = 1 ∧ jaccard = 1) ∧
    (¬ (predicted = ∅ ∧ actual = ∅) →
       (predicted ≠ ∅ →
          precision = INR (size (predicted ∩ actual)) / INR (size predicted)) ∧
       (predicted = ∅ → precision = 0) ∧
       (actual ≠ ∅ →
          recall = INR (size (predicted ∩ actual)) / INR (size actual)) ∧
       (actual = ∅ → recall = 0) ∧
       (0 < precision + recall →
          f1 = 2 * precision * recall / (precision + recall)) ∧
       (¬ 0 < precision + recall → f1 = 0) ∧
       (predicted ∪ actual ≠ ∅ →
          jaccard = INR (size (predicted ∩ actual)) / INR (size (predicted ∪ actual))) ∧
       (predicted ∪ actual = ∅ → jaccard = 0)).
Proof.
  destruct (decide (predicted = ∅ ∧ actual = ∅)) as [[-> ->]|Hne].
  { exists 1, 1, 1, 1. rewrite compute_metrics_both_empty.
    do 4 (split; [reflexivity|]). split; [done|].
    intros Hne. by destruct Hne. }
  rewrite (compute_metrics_not_both_empty _ _ Hne). cbv zeta.
  eexists _, _, _, _.
  split; [apply metrics_dict_precision|]. split; [apply metrics_dict_recall|].
  split; [apply metrics_dict_f1|]. split; [apply metrics_dict_jaccard|].
  split; [tauto|]. intros _.
  split; [intros H; by rewrite (nonempty_true _ H)|].
  split; [intros H; by rewrite (nonempty_false _ H)|].
  split; [intros H; by rewrite (nonempty_true _ H)|].
  split; [intros H; by rewrite (nonempty_false _ H)|].
  split; [intros H; by destruct (Rlt_dec _ _)|].
  split; [intros H; by destruct (Rlt_dec _ _)|].
  split; [intros H; by rewrite (nonempty_true _ H)|].
  intros H; by rewrite (nonempty_false _ H).
Qed.

(** C10.  Swapping the two arguments exchanges precision and recall and
    leaves f1 and jaccard unchanged. *)
Theorem compute_metrics_swap (a b : gset string) :
  Overlap.compute_metrics a b !! "precision" = Overlap.compute_metrics b a !! "recall" ∧
  Overlap.compute_metrics a b !! "recall" = Overlap.compute_metrics b a !! "precision" ∧
  Overlap.compute_metrics a b !! "f1" = Overlap.compute_metrics b a !! "f1" ∧
  Overlap.compute_metrics a b !! "jaccard" = Overlap.compute_metrics b a !! "jaccard".
Proof.
  destruct (decide (a = ∅ ∧ b = ∅)) as [[-> ->]|Hne]; [done|].
  rewrite (compute_metrics_not_both_empty a b Hne).
  rewrite (compute_metrics_not_both_empty b a) by tauto. cbv zeta.
  rewrite !metrics_dict_precision, !metrics_dict_recall, !metrics_dict_f1,
          !metrics_dict_jaccard.
  rewrite (comm_L (∩) b a), (comm_L (∪) b a).
  split; [done|]. split; [done|]. split; [|done].
  f_equal.
  set (p := if Overlap.nonempty a then _ else _).
  set (r := if Overlap.nonempty b then _ else _).
  rewrite (Rplus_comm r p).
  destruct (Rlt_dec 0 (p + r)); [|done]. unfold Rdiv. ring.
Qed.

(** Equal non-empty sets score 1 everywhere, disjoint sets 0 everywhere. *)
Lemma compute_metrics_same (keywords : gset string) :
  keywords ≠ ∅ →
  Overlap.compute_metrics keywords keywords = Overlap.metrics_dict 1 1 1 1.
Proof.
  intros Hne. rewrite compute_metrics_not_both_empty by tauto. cbv zeta.
  rewrite (idemp_L (∩) keywords), (idemp_L (∪) keywords), (nonempty_true _ Hne).
  assert (INR (size keywords) ≠ 0) as Hsize.
  { apply not_0_INR. intros H0. by apply size_empty_iff, leibniz_equiv in H0. }
  replace (INR (size keywords) / INR (size keywords)) with 1 by (by field).
  destruct (Rlt_dec 0 (1 + 1)) as [_|Hle]; [|lra].
  by replace (2 * 1 * 1 / (1 + 1)) with 1 by field.
Qed.

Lemma compute_metrics_disjoint (predicted actual : gset string) :
  predicted ∩ actual = ∅ → ¬ (predicted = ∅ ∧ actual = ∅) →
  Overlap.compute_metrics predicted actual = Overlap.metrics_dict 0 0 0 0.
Proof.
  intros Hdisj Hne. rewrite compute_metrics_not_both_empty by done. cbv zeta.
  rewrite Hdisj, size_empty. simpl INR. unfold Rdiv. rewrite !Rmult_0_l.
  destruct (Overlap.nonempty predicted), (Overlap.nonempty actual),
           (Overlap.nonempty (predicted ∪ actual));
    destruct (Rlt_dec 0 (0 + 0)); (reflexivity || lra).
Qed.

End OverlapMetrics.

(** ** The aggregator *)

Lemma list_ascii_of_string_app (s1 s2 : string) :
  list_ascii_of_string (s1 +:+ s2)
  = (list_ascii_of_string s1 ++ list_ascii_of_string s2)%list.
Proof. induction s1 as [|c s1 IH]; simpl; [done|]. by rewrite IH. Qed.

Lemma mean_key_inj (key1 key2 : string) :
  key1 +:+ "_mean" = key2 +:+ "_mean" → key1 = key2.
Proof.
  intros H. apply (f_equal list_ascii_of_string) in H.
  rewrite !list_ascii_of_string_app in H. apply app_inv_tail in H.
  rewrite <-(string_of_list_ascii_of_string key1),
          <-(string_of_list_ascii_of_string key2). by rewrite H.
Qed.

Lemma std_key_inj (key1 key2 : string) :
  key1 +:+ "_std" = key2 +:+ "_std" → key1 = key2.
Proof.
  intros H. apply (f_equal list_ascii_of_string) in H.
  rewrite !list_ascii_of_string_app in H. apply app_inv_tail in H.
  rewrite <-(string_of_list_ascii_of_string key1),
          <-(string_of_list_ascii_of_string key2). by rewrite H.
Qed.

Lemma mean_key_ne_std_key (key1 key2 : string) :
  key1 +:+ "_mean" ≠ key2 +:+ "_std".
Proof.
  intros H. apply (f_equal list_ascii_of_string) in H.
  rewrite !list_ascii_of_string_app in H.
  change (list_ascii_of_string "_mean")
    with (list_ascii_of_string "_mea" ++ ["n"%char])%list in H.
  change (list_ascii_of_string "_std")
    with (list_ascii_of_string "_st" ++ ["d"%char])%list in H.
  rewrite !List.app_assoc in H. apply app_inj_tail in H as [_ H]. discriminate.
Qed.

(** One dictionary added to the collected values. *)
Lemma lookup_append_values (metrics : gmap string R)
    (aggregate : gmap string (list R)) (key : string) :
  map_fold Overlap.append_value aggregate metrics !! key =
  match metrics !! key with
  | Some value => Some (default [] (aggregate !! key) ++ [value])%list
  | None => aggregate !! key
  end.
Proof.
  revert key.
  apply (map_fold_weak_ind
           (fun r (m : gmap string R) =>
              ∀ key, r !! key = match m !! key with
                                | Some value => Some (default [] (aggregate !! key) ++ [value])%list
                                | None => aggregate !! key
                                end)).
  - intros key. by rewrite lookup_empty.
  - intros i x m r Hi IH key. unfold Overlap.append_value.
    destruct (decide (i = key)) as [->|Hne].
    + rewrite !lookup_insert_eq. by rewrite IH, Hi.
    + rewrite !lookup_insert_ne by done. apply IH.
Qed.

Lemma lookup_collect_values_from (all_metrics : list (gmap string R))
    (aggregate : gmap string (list R)) (key : string) :
  foldl (fun aggregate metrics => map_fold Overlap.append_value aggregate metrics)
        aggregate all_metrics !! key =
  match values_present key all_metrics with
  | [] => aggregate !! key
  | v :: vs => Some (default [] (aggregate !! key) ++ v :: vs)%list
  end.
Proof.
  revert aggregate. induction all_metrics as [|metrics all_metrics IH];
    intros aggregate; [done|].
  simpl. rewrite IH, lookup_append_values. unfold values_present. simpl.
  destruct (metrics !! key) as [value|]; simpl; [|done].
  destruct (omap _ all_metrics); [done|]. by rewrite <-List.app_assoc.
Qed.

(** The first loop collects, for every key, the values present. *)
Lemma lookup_collect_values (all_metrics : list (gmap string R)) (key : string) :
  Overlap.collect_values all_metrics !! key =
  match values_present key all_metrics with
  | [] => None
  | v :: vs => Some (v :: vs)
  end.
Proof.
  unfold Overlap.collect_values. rewrite lookup_collect_values_from.
  by rewrite lookup_empty.
Qed.

(** The second loop writes the two summaries of every collected key. *)
Lemma lookup_summaries (aggregate : gmap string (list R)) (key : string) :
  map_fold Overlap.add_summary ∅ aggregate !! (key +:+ "_mean") =
    match aggregate !! key with
    | Some (v :: vs) => Some (Overlap.mean (v :: vs))
    | _ => None
    end ∧
  map_fold Overlap.add_summary ∅ aggregate !! (key +:+ "_std") =
    match aggregate !! key with
    | Some (v :: vs) => Some (Overlap.std (Overlap.mean (v :: vs)) (v :: vs))
    | _ => None
    end.
Proof.
  revert key.
  apply (map_fold_weak_ind
           (fun (r : gmap string R) (m : gmap string (list R)) =>
              ∀ key,
                r !! (key +:+ "_mean") =
                  match m !! key with
                  | Some (v :: vs) => Some (Overlap.mean (v :: vs))
                  | _ => None
                  end ∧
                r !! (key +:+ "_std") =
                  match m !! key with
                  | Some (v :: vs) => Some (Overlap.std (Overlap.mean (v :: vs)) (v :: vs))
                  | _ => None
                  end)).
  - intros key. by rewrite !lookup_empty.
  - intros i values m r Hi IH key.
    destruct (IH key) as [IHmean IHstd].
    destruct (decide (i = key)) as [->|Hne].
    + rewrite lookup_insert_eq. rewrite Hi in IHmean, IHstd.
      destruct values as [|v vs]; simpl; [done|].
      rewrite lookup_insert_eq.
      rewrite lookup_insert_ne by (intros H; by apply (mean_key_ne_std_key key key)).
      by rewrite lookup_insert_eq, lookup_insert_eq.
    + rewrite lookup_insert_ne by done.
      destruct values as [|v vs]; simpl; [done|].
      rewrite lookup_insert_eq.
      rewrite !lookup_insert_ne; [done|..]; intros H;
        first [ by apply mean_key_inj in H
              | by apply std_key_inj in H
              | by apply mean_key_ne_std_key in H
              | symmetry in H; by apply mean_key_ne_std_key in H ].
Qed.

Lemma foldl_Rplus_total (values : list R) (start : R) :
  foldl Rplus start values = (start + total values)%R.
Proof.
  revert start. induction values as [|x values IH]; intros start; simpl.
  - ring.
  - rewrite IH. ring.
Qed.

(** [sum] adds from the left, the specification's sum from the right: the
    same number. *)
Lemma py_sum_total (values : list R) : Overlap.py_sum values = total values.
Proof. unfold Overlap.py_sum. rewrite foldl_Rplus_total. ring. Qed.

Lemma mean_arithmetic_mean (values : list R) :
  Overlap.mean values = arithmetic_mean values.
Proof. unfold Overlap.mean, arithmetic_mean. by rewrite py_sum_total. Qed.

Lemma std_population_std (values : list R) :
  Overlap.std (Overlap.mean values) values = population_std values.
Proof.
  unfold Overlap.std, population_std.
  by rewrite py_sum_total, mean_arithmetic_mean.
Qed.

Lemma arithmetic_mean_singleton (value : R) : arithmetic_mean [value] = value.
Proof. unfold arithmetic_mean. simpl. field. Qed.

Lemma population_std_singleton (value : R) : population_std [value] = 0%R.
Proof.
  unfold population_std. rewrite arithmetic_mean_singleton. simpl.
  replace ((value - value) * ((value - value) * 1) + 0)%R with 0%R by ring.
  unfold Rdiv. rewrite Rmult_0_l. apply sqrt_0.
Qed.

(** The summaries of a key with at least one value present. *)
Lemma lookup_aggregate (all_metrics : list (gmap string R)) (key : string) :
  values_present key all_metrics ≠ [] →
  Overlap.compute_aggregate_metrics all_metrics !! (key +:+ "_mean")
    = Some (arithmetic_mean (values_present key all_metrics)) ∧
  Overlap.compute_aggregate_metrics all_metrics !! (key +:+ "_std")
    = Some (population_std (values_present key all_metrics)).
Proof.
  intros Hpresent. unfold Overlap.compute_aggregate_metrics.
  destruct all_metrics as [|metrics all_metrics]; [done|].
  destruct (lookup_summaries (Overlap.collect_values (metrics :: all_metrics)) key)
    as [Hmean Hstd].
  rewrite Hmean, Hstd, lookup_collect_values.
  destruct (values_present key (metrics :: all_metrics)) as [|v vs]; [done|].
  by rewrite std_population_std, mean_arithmetic_mean.
Qed.

(** C6.  The aggregation of an empty collection has no keys.  For every key
    with a value present in the collection, the result holds under
    [key_mean] the arithmetic mean of the values present and under [key_std]
    their population standard deviation (squared deviations summed, divided
    by [N], square root).  For a collection of one dictionary, the mean of
    each of its keys is the value itself and the standard deviation is 0. *)
Theorem aggregate_mean_and_population_std (all_metrics : list (gmap string R)) :
  (all_metrics = [] → Overlap.compute_aggregate_metrics all_metrics = ∅) ∧
  (∀ key, values_present key all_metrics ≠ [] →
     Overlap.compute_aggregate_metrics all_metrics !! (key +:+ "_mean")
       = Some (arithmetic_mean (values_present key all_metrics)) ∧
     Overlap.compute_aggregate_metrics all_metrics !! (key +:+ "_std")
       = Some (population_std (values_present key all_metrics))) ∧
  (∀ metrics key value,
     all_metrics = [metrics] → metrics !! key = Some value →
     Overlap.compute_aggregate_metrics all_metrics !! (key +:+ "_mean") = Some value ∧
     Overlap.compute_aggregate_metrics all_metrics !! (key +:+ "_std") = Some 0%R).
Proof.
  split; [by intros ->|]. split; [apply lookup_aggregate|].
  intros metrics key value -> Hvalue.
  assert (values_present key [metrics] = [value]) as Hpresent.
  { unfold values_present. simpl. by rewrite Hvalue. }
  destruct (lookup_aggregate [metrics] key) as [Hmean Hstd];
    [by rewrite Hpresent|].
  rewrite Hmean, Hstd, Hpresent.
  by rewrite arithmetic_mean_singleton, population_std_singleton.
Qed.

(** ** Per-annotator and overall aggregation *)

Section Scoring.
Variable original_lookup : gmap string Overlap.OriginalInstance.t.

Lemma score_step_scored user_metrics per_instance_results total_instances
    annotated_instance :
  Overlap.score_step original_lookup
    (user_metrics, per_instance_results, total_instances) annotated_instance =
  match scored_instance original_lookup annotated_instance with
  | Some result =>
      (user_metrics ++ [Overlap.InstanceResult.metrics result],
       per_instance_results ++ [result], S total_instances)
  | None => (user_metrics, per_instance_results, total_instances)
  end.
Proof.
  unfold Overlap.score_step, scored_instance.
  destruct (py_or _ _) as [instance_id|]; [|done].
  destruct (truthy (Some instance_id)); [|done]. simpl.
  by destruct (original_lookup !! instance_id).
Qed.

Lemma score_fold user_annotations :
  ∀ user_metrics per_instance_results total_instances,
    foldl (Overlap.score_step original_lookup)
          (user_metrics, per_instance_results, total_instances) user_annotations =
    (user_metrics ++ map Overlap.InstanceResult.metrics
                       (omap (scored_instance original_lookup) user_annotations),
     per_instance_results ++ omap (scored_instance original_lookup) user_annotations,
     total_instances
       + length (omap (scored_instance original_lookup) user_annotations)).
Proof.
  induction user_annotations as [|annotated_instance user_annotations IH];
    intros user_metrics per_instance_results total_instances.
  - simpl. by rewrite !app_nil_r, Nat.add_0_r.
  - cbn [foldl]. rewrite score_step_scored. simpl.
    destruct (scored_instance original_lookup annotated_instance) as [result|];
      rewrite IH; [|done].
    simpl. rewrite <-!List.app_assoc. simpl.
    by rewrite Nat.add_succ_r.
Qed.

(** What [compute_user_metrics] returns for one annotator. *)
Lemma compute_user_metrics_scored user_annotations :
  Overlap.compute_user_metrics user_annotations original_lookup =
  Overlap.UserResult.mk
    (length (omap (scored_instance original_lookup) user_annotations))
    (Overlap.compute_aggregate_metrics
       (map Overlap.InstanceResult.metrics
            (omap (scored_instance original_lookup) user_annotations)))
    (omap (scored_instance original_lookup) user_annotations).
Proof. unfold Overlap.compute_user_metrics. by rewrite score_fold. Qed.
End Scoring.

(** The annotations of all users, user after user in the order of the
    dictionary. *)
Lemma grouped_annotations_insert
    (groups : gmap string (list Overlap.AnnotatedInstance.t)) user_id instance :
  concat (map_to_list
            (<[user_id := default [] (groups !! user_id) ++ [instance]]> groups)).*2
  ≡ₚ instance :: concat (map_to_list groups).*2.
Proof.
  destruct (groups !! user_id) as [old|] eqn:Hold; simpl.
  - rewrite <-insert_delete_eq.
    rewrite map_to_list_insert by apply lookup_delete_eq.
    rewrite <-(map_to_list_delete groups user_id old Hold). simpl.
    rewrite <-List.app_assoc. simpl.
    by rewrite <-Permutation_middle.
  - by rewrite map_to_list_insert.
Qed.

Lemma grouped_annotations annotated_data :
  ∀ groups,
    concat (map_to_list (foldl Overlap.group_step groups annotated_data)).*2
    ≡ₚ concat (map_to_list groups).*2 ++
       filter (fun annotated_instance =>
                 truthy (Overlap.AnnotatedInstance.user_id annotated_instance) = true)
              annotated_data.
Proof.
  induction annotated_data as [|instance annotated_data IH]; intros groups; simpl.
  - by rewrite app_nil_r.
  - rewrite IH. unfold Overlap.group_step at 1.
    destruct (Overlap.AnnotatedInstance.user_id instance) as [user_id|] eqn:Huser.
    + destruct (truthy (Some user_id)) eqn:Htruthy.
      * rewrite grouped_annotations_insert.
        rewrite filter_cons_True by (by rewrite Huser).
        by rewrite <-Permutation_middle.
      * rewrite filter_cons_False; [done|]. by rewrite Huser, Htruthy.
    + rewrite filter_cons_False; [done|]. by rewrite Huser.
Qed.

Lemma flat_map_lookup_values {V} (groups : gmap string (list V)) :
  flat_map (fun user_id => default [] (groups !! user_id)) (Overlap.dict_keys groups)
  = concat (map_to_list groups).*2.
Proof.
  unfold Overlap.dict_keys.
  assert (∀ kv, kv ∈ map_to_list groups → groups !! kv.1 = Some kv.2) as Hall.
  { intros [k v] Hkv. by apply elem_of_map_to_list. }
  revert Hall. generalize (map_to_list groups).
  induction l as [|[k v] l IH]; intros Hall; [done|]. simpl.
  pose proof (Hall (k, v) (list_elem_of_here _ _)) as Hk. simpl in Hk.
  rewrite Hk. simpl. f_equal.
  apply IH. intros kv Hkv. apply Hall. by apply list_elem_of_further.
Qed.

Lemma flat_map_scored {U A B C} (h : U → list A) (f : A → option B) (g : B → C)
    (users : list U) :
  flat_map (fun user => map g (omap f (h user))) users
  = map g (omap f (flat_map h users)).
Proof.
  induction users as [|user users IH]; [done|]. simpl.
  by rewrite IH, omap_app, map_app.
Qed.

(** The flat list of [main] in terms of the groups. *)
Lemma all_instance_metrics_groups
    (original_lookup : gmap string Overlap.OriginalInstance.t)
    (groups : gmap string (list Overlap.AnnotatedInstance.t)) :
  Overlap.all_instance_metrics (Overlap.compute_user_results original_lookup groups)
  = map Overlap.InstanceResult.metrics
      (omap (scored_instance original_lookup)
            (flat_map (fun user_id => default [] (groups !! user_id))
                      (Overlap.sorted_users groups))).
Proof.
  unfold Overlap.all_instance_metrics, Overlap.compute_user_results.
  rewrite flat_map_concat_map, map_map, <-flat_map_concat_map. simpl.
  rewrite <-flat_map_scored. apply flat_map_ext. intros user_id.
  by rewrite compute_user_metrics_scored.
Qed.

(** Every scored instance enters the flat list once, whoever annotated it. *)
Lemma all_instance_metrics_scored original_data annotated_data :
  Overlap.all_instance_metrics
    (Overlap.Report.per_user (Overlap.main original_data annotated_data))
  ≡ₚ map Overlap.InstanceResult.metrics (scored_instances original_data annotated_data).
Proof.
  unfold Overlap.main, scored_instances. simpl.
  rewrite all_instance_metrics_groups.
  apply Permutation_map, omap_Permutation.
  unfold Overlap.sorted_users.
  rewrite (Permutation_flat_map _ (merge_sort_Permutation _ _)).
  rewrite flat_map_lookup_values. unfold Overlap.group_by_user.
  rewrite grouped_annotations. by rewrite map_to_list_empty.
Qed.

(** C3.  The overall aggregate of [main] is the aggregation function applied
    to the flat list of the instance metrics of all annotators, and that list
    holds the metrics of every scored instance once.  On the sample input
    annotator A scores one instance with f1 = 0 and annotator B three
    instances with f1 = 1: the per-annotator f1 means are 0 and 1, with the
    unweighted average 0.5, while the overall f1 mean is 0.75. *)
Theorem overall_aggregate_over_flat_list :
  (∀ original_data annotated_data,
     Overlap.Report.overall_aggregate_metrics
       (Overlap.main original_data annotated_data)
     = Overlap.compute_aggregate_metrics
         (Overlap.all_instance_metrics
            (Overlap.Report.per_user (Overlap.main original_data annotated_data))) ∧
     Overlap.all_instance_metrics
       (Overlap.Report.per_user (Overlap.main original_data annotated_data))
     ≡ₚ map Overlap.InstanceResult.metrics
          (scored_instances original_data annotated_data)) ∧
  (∃ (result_A result_B : Overlap.UserResult.t) (mean_A mean_B overall_mean : R),
     Overlap.Report.per_user
       (Overlap.main example_original_data example_annotated_data)
     = [("A", result_A); ("B", result_B)] ∧
     map (fun result => Overlap.InstanceResult.metrics result !! "f1")
         (Overlap.UserResult.per_instance result_A) = [Some 0%R] ∧
     map (fun result => Overlap.InstanceResult.metrics result !! "f1")
         (Overlap.UserResult.per_instance result_B) = [Some 1%R; Some 1%R; Some 1%R] ∧
     Overlap.UserResult.aggregate_metrics result_A !! "f1_mean" = Some mean_A ∧
     Overlap.UserResult.aggregate_metrics result_B !! "f1_mean" = Some mean_B ∧
     Overlap.Report.overall_aggregate_metrics
       (Overlap.main example_original_data example_annotated_data) !! "f1_mean"
     = Some overall_mean ∧
     overall_mean = 0.75%R ∧
     ((mean_A + mean_B) / 2 = 0.5)%R ∧
     (overall_mean ≠ (mean_A + mean_B) / 2)%R).
Proof.
  split.
  { intros original_data annotated_data. split; [reflexivity|].
    apply all_instance_metrics_scored. }
  pose (miss := Overlap.compute_metrics {["loyal"]} {["brave"]}).
  pose (hit1 := Overlap.compute_metrics {["brave"]} {["brave"]}).
  pose (hit2 := Overlap.compute_metrics {["kind"]} {["kind"]}).
  pose (hit3 := Overlap.compute_metrics {["shy"]} {["shy"]}).
  assert (miss !! "f1" = Some 0%R) as Hmiss.
  { unfold miss. rewrite compute_metrics_disjoint; [done|by_computation|].
    intros [H _]. revert H. by_computation. }
  assert (hit1 !! "f1" = Some 1%R ∧ hit2 !! "f1" = Some 1%R ∧ hit3 !! "f1" = Some 1%R)
    as (Hhit1 & Hhit2 & Hhit3).
  { unfold hit1, hit2, hit3.
    rewrite !compute_metrics_same by by_computation. done. }
  exists (Overlap.UserResult.mk 1
            (Overlap.compute_aggregate_metrics [miss])
            [Overlap.InstanceResult.mk "c1" {["brave"]} {["loyal"]} miss]),
         (Overlap.UserResult.mk 3
            (Overlap.compute_aggregate_metrics [hit1; hit2; hit3])
            [Overlap.InstanceResult.mk "c1" {["brave"]} {["brave"]} hit1;
             Overlap.InstanceResult.mk "c2" {["kind"]} {["kind"]} hit2;
             Overlap.InstanceResult.mk "c3" {["shy"]} {["shy"]} hit3]),
         0%R, 1%R, 0.75%R.
  split; [vm_compute; reflexivity|].
  cbn [Overlap.UserResult.per_instance Overlap.UserResult.aggregate_metrics
       Overlap.InstanceResult.metrics map].
  split; [by rewrite Hmiss|]. split; [by rewrite Hhit1, Hhit2, Hhit3|].
  assert (Overlap.Report.overall_aggregate_metrics
            (Overlap.main example_original_data example_annotated_data)
          = Overlap.compute_aggregate_metrics [miss; hit1; hit2; hit3]) as ->
    by (vm_compute; reflexivity).
  change "f1_mean" with ("f1" +:+ "_mean").
  split; [|split; [|split; [|split; [|split]; lra]]].
  - destruct (lookup_aggregate [miss] "f1") as [-> _];
      unfold values_present; simpl; rewrite Hmiss; [done|].
    f_equal. unfold arithmetic_mean. simpl. lra.
  - destruct (lookup_aggregate [hit1; hit2; hit3] "f1") as [-> _];
      unfold values_present; simpl; rewrite Hhit1, Hhit2, Hhit3; [done|].
    f_equal. unfold arithmetic_mean. simpl. lra.
  - destruct (lookup_aggregate [miss; hit1; hit2; hit3] "f1") as [-> _];
      unfold values_present; simpl; rewrite Hmiss, Hhit1, Hhit2, Hhit3; [done|].
    f_equal. unfold arithmetic_mean. simpl. lra.
Qed.

(** * Further properties of the three scripts *)

(** ** Suffix tests *)

Lemma substring_all (s : string) : substring 0 (String.length s) s = s.
Proof. induction s as [|c s IH]; simpl; [done|]. by rewrite IH. Qed.

Lemma substring_skip_app (stem suffix : string) :
  substring (String.length stem) (String.length suffix) (stem +:+ suffix) = suffix.
Proof. induction stem as [|c stem IH]; simpl; [apply substring_all|done]. Qed.

Lemma length_append (s1 s2 : string) :
  String.length (s1 +:+ s2) = String.length s1 + String.length s2.
Proof. induction s1 as [|c s1 IH]; simpl; [done|]. by rewrite IH. Qed.

Lemma substring_split (s : string) (k : nat) :
  k ≤ String.length s →
  s = substring 0 k s +:+ substring k (String.length s - k) s.
Proof.
  revert k. induction s as [|c s IH]; intros [|k] Hk; simpl in *; try lia.
  - done.
  - by rewrite substring_all.
  - change (String c s = String c (substring 0 k s +:+ substring k (String.length s - k) s)).
    f_equal. apply IH. lia.
Qed.

(** [s.endswith(suffix)] holds exactly for the strings [stem + suffix]. *)
Lemma endswith_iff (s suffix : string) :
  endswith s suffix = true ↔ ∃ stem, s = stem +:+ suffix.
Proof.
  unfold endswith. split.
  - intros H. apply andb_true_iff in H as [Hlen Heq].
    apply Nat.leb_le in Hlen. apply String.eqb_eq in Heq.
    exists (substring 0 (String.length s - String.length suffix) s).
    pose proof (substring_split s (String.length s - String.length suffix)
                  ltac:(lia)) as Hs.
    replace (String.length s - (String.length s - String.length suffix))
      with (String.length suffix) in Hs by lia.
    by rewrite Heq in Hs.
  - intros [stem ->]. rewrite length_append. apply andb_true_iff. split.
    + apply Nat.leb_le. lia.
    + replace (String.length stem + String.length suffix - String.length suffix)
        with (String.length stem) by lia.
      rewrite substring_skip_app. apply String.eqb_refl.
Qed.

(** Two strings that end in different characters are not suffixes of one
    another's extensions. *)
Lemma endswith_app_false (stem t suffix : string) (c1 c2 : ascii) :
  last (list_ascii_of_string t) = Some c1 →
  last (list_ascii_of_string suffix) = Some c2 →
  c1 ≠ c2 →
  endswith (stem +:+ t) suffix = false.
Proof.
  intros Ht Hsuffix Hne. apply not_true_is_false. intros H.
  apply endswith_iff in H as [stem2 H].
  apply (f_equal (fun s => last (list_ascii_of_string s))) in H.
  rewrite !list_ascii_of_string_app, !last_app, Ht, Hsuffix in H.
  congruence.
Qed.

Section LoadBioFileDispatch.
Context {records : Type}.
Variables load_jsonl json_load read_csv_records : string → exn + records.

(** X1.  Whatever the stem, a path [stem.jsonl] is handed to the JSONL
    reader, [stem.json] to the JSON reader and [stem.csv] to the CSV reader,
    each with the path unchanged; the result, or the error, of the reader is
    what [load_bio_file] returns. *)
Theorem load_bio_file_dispatch (stem : string) :
  load_bio_file load_jsonl json_load read_csv_records (stem +:+ ".jsonl")
    = load_jsonl (stem +:+ ".jsonl") ∧
  load_bio_file load_jsonl json_load read_csv_records (stem +:+ ".json")
    = json_load (stem +:+ ".json") ∧
  load_bio_file load_jsonl json_load read_csv_records (stem +:+ ".csv")
    = read_csv_records (stem +:+ ".csv").
Proof.
  unfold load_bio_file. split; [|split].
  - by rewrite (proj2 (endswith_iff _ _) (ex_intro _ stem eq_refl)).
  - rewrite (endswith_app_false stem ".json" ".jsonl" "n" "l") by done.
    by rewrite (proj2 (endswith_iff _ _) (ex_intro _ stem eq_refl)).
  - rewrite (endswith_app_false stem ".csv" ".jsonl" "v" "l") by done.
    rewrite (endswith_app_false stem ".csv" ".json" "v" "n") by done.
    by rewrite (proj2 (endswith_iff _ _) (ex_intro _ stem eq_refl)).
Qed.
End LoadBioFileDispatch.

(** ** Lookup tables built by dictionary comprehensions *)

Lemma foldl_insert_lookup_last {V} (key : V → string) (items : list V)
    (lookup : gmap string V) (k : string) :
  foldl (fun lookup item => <[key item := item]> lookup) lookup items !! k =
  match last (filter (fun item => key item = k) items) with
  | Some item => Some item
  | None => lookup !! k
  end.
Proof.
  revert lookup. induction items as [|item items IH]; intros lookup; [done|].
  cbn [foldl]. rewrite IH. destruct (decide (key item = k)) as [Hk|Hk].
  - rewrite filter_cons_True by done. rewrite last_cons.
    destruct (last (filter _ items)); [done|].
    by rewrite <-Hk, lookup_insert_eq.
  - rewrite filter_cons_False by done.
    destruct (last (filter _ items)); [done|].
    by rewrite lookup_insert_ne.
Qed.

(** X2.  The model lookup maps an identifier to the last entry of the model
    output that carries it, and to nothing when no entry does: a repeated
    [character_json] silently replaces the earlier entry. *)
Theorem model_lookup_last_wins (model_data : list ModelItem.t) (char_id : string) :
  build_model_lookup model_data !! char_id =
  last (filter (fun item => ModelItem.character_json item = char_id) model_data).
Proof.
  unfold build_model_lookup. rewrite foldl_insert_lookup_last, lookup_empty.
  by destruct (last _).
Qed.

(** X3.  The original lookup of the scorer maps an instance id to the last
    record of the original data file with that id, and to nothing when no
    record has it. *)
Theorem original_lookup_last_wins (original_data : list Overlap.OriginalInstance.t)
    (instance_id : string) :
  Overlap.build_original_lookup original_data !! instance_id =
  last (filter (fun item => Overlap.OriginalInstance.id item = instance_id)
               original_data).
Proof.
  unfold Overlap.build_original_lookup.
  rewrite foldl_insert_lookup_last, lookup_empty. by destruct (last _).
Qed.

(** ** The joins of the two flows *)

Lemma append_join_step_state used_ids model_lookup available_data pool bio_item :
  AddSamples.join_step used_ids model_lookup (available_data, pool) bio_item =
  match available_character used_ids model_lookup bio_item with
  | Some item =>
      (available_data ++ [item], pool ∪ list_to_set (Character.model_keywords item))
  | None => (available_data, pool)
  end.
Proof.
  unfold AddSamples.join_step, available_character.
  destruct (py_or _ _) as [char_id|]; [|done].
  destruct (truthy (Some char_id)); cbn [negb orb andb]; [|done].
  destruct (bool_decide (char_id ∈ used_ids)); cbn [negb]; [done|].
  destruct (model_lookup !! char_id) as [model_item|]; [|done].
  by destruct (english_keywords model_item).
Qed.

Lemma prepare_join_step_append model_lookup st bio_item :
  PrepareData.join_step model_lookup st bio_item
  = AddSamples.join_step ∅ model_lookup st bio_item.
Proof.
  unfold PrepareData.join_step, AddSamples.join_step. destruct st as [joined pool].
  destruct (py_or _ _) as [char_id|]; [|done].
  rewrite (bool_decide_eq_false_2 (char_id ∈ (∅ : gset string)))
    by apply not_elem_of_empty.
  by rewrite orb_false_r.
Qed.

Lemma prepare_join_append model_lookup bio_data :
  PrepareData.join model_lookup bio_data = AddSamples.join ∅ model_lookup bio_data.
Proof.
  unfold PrepareData.join, AddSamples.join.
  generalize (([], ∅) : list Character.t * gset string).
  induction bio_data as [|bio_item bio_data IH]; intros st; [done|].
  cbn [foldl]. by rewrite prepare_join_step_append, IH.
Qed.

(** The state of the join after a run of biography entries. *)
Lemma append_join_from used_ids model_lookup bio_data :
  ∀ available_data pool,
    foldl (AddSamples.join_step used_ids model_lookup) (available_data, pool) bio_data
    = (available_data ++ omap (available_character used_ids model_lookup) bio_data,
       pool ∪ ⋃ ((fun item => list_to_set (Character.model_keywords item))
                 <$> omap (available_character used_ids model_lookup) bio_data)).
Proof.
  induction bio_data as [|bio_item bio_data IH]; intros available_data pool.
  - simpl. by rewrite app_nil_r, (right_id_L ∅ (∪)).
  - cbn [foldl]. rewrite append_join_step_state. simpl.
    destruct (available_character used_ids model_lookup bio_item) as [item|];
      rewrite IH; [|done].
    simpl. rewrite <-List.app_assoc. simpl. by rewrite (assoc_L (∪)).
Qed.

Lemma append_join_state used_ids model_lookup bio_data :
  AddSamples.join used_ids model_lookup bio_data
  = (omap (available_character used_ids model_lookup) bio_data,
     ⋃ ((fun item => list_to_set (Character.model_keywords item))
        <$> omap (available_character used_ids model_lookup) bio_data)).
Proof.
  unfold AddSamples.join. rewrite append_join_from. simpl.
  by rewrite (left_id_L ∅ (∪)).
Qed.

Lemma elem_of_keyword_union (items : list Character.t) (k : string) :
  k ∈ (⋃ ((fun item => list_to_set (Character.model_keywords item)) <$> items)
       : gset string)
  ↔ ∃ item, item ∈ items ∧ k ∈ Character.model_keywords item.
Proof.
  rewrite elem_of_union_list. split.
  - intros (X & HX & Hk). apply list_elem_of_fmap in HX as (item & -> & Hitem).
    exists item. split; [done|]. by apply elem_of_list_to_set in Hk.
  - intros (item & Hitem & Hk). exists (list_to_set (Character.model_keywords item)).
    split; [|by apply elem_of_list_to_set].
    apply list_elem_of_fmap. by exists item.
Qed.

(** What a biography entry must satisfy to be joined, and the record it
    yields. *)
Lemma available_character_Some used_ids model_lookup bio_item item :
  available_character used_ids model_lookup bio_item = Some item ↔
  ∃ model_item,
    py_or (BioItem.character_json bio_item) (BioItem.id bio_item)
      = Some (Character.id item) ∧
    Character.id item ≠ "" ∧
    (Character.id item ∉ used_ids) ∧
    model_lookup !! Character.id item = Some model_item ∧
    english_keywords model_item ≠ [] ∧
    item = joined_record (Character.id item) bio_item (english_keywords model_item).
Proof.
  unfold available_character. split.
  - destruct (py_or _ _) as [char_id|]; [|done].
    destruct (truthy (Some char_id)) eqn:Htruthy; [|done].
    destruct (bool_decide (char_id ∈ used_ids)) eqn:Hused; [done|]. simpl.
    destruct (model_lookup !! char_id) as [model_item|] eqn:Hlookup; [|done].
    destruct (english_keywords model_item) as [|kw kws] eqn:Hkw; [done|].
    intros [= <-]. simpl. exists model_item. rewrite Hkw.
    split; [done|]. split.
    { intros ->. simpl in Htruthy. done. }
    split; [by apply bool_decide_eq_false in Hused|]. done.
  - intros (model_item & -> & Hne & Hused & -> & Hkw & Hitem).
    assert (truthy (Some (Character.id item)) = true) as ->.
    { simpl. apply negb_true_iff, String.eqb_neq. done. }
    rewrite bool_decide_eq_false_2 by done. simpl.
    destruct (english_keywords model_item) as [|kw kws]; [done|].
    by rewrite Hitem.
Qed.

Lemma available_character_excluding used_ids model_lookup bio_item :
  available_character used_ids model_lookup bio_item =
  match available_character ∅ model_lookup bio_item with
  | Some item => if decide (Character.id item ∉ used_ids) then Some item else None
  | None => None
  end.
Proof.
  unfold available_character.
  destruct (py_or _ _) as [char_id|]; [|done].
  rewrite (bool_decide_eq_false_2 (char_id ∈ (∅ : gset string)))
    by apply not_elem_of_empty.
  destruct (truthy (Some char_id)); [|done]. cbn [negb andb].
  destruct (model_lookup !! char_id) as [model_item|].
  - destruct (english_keywords model_item) as [|kw kws].
    + by destruct (bool_decide _).
    + simpl. destruct (decide (char_id ∉ used_ids)) as [Hout|Hin].
      * by rewrite bool_decide_eq_false_2.
      * rewrite bool_decide_eq_true_2; [done|]. by apply dec_stable.
  - by destruct (bool_decide _).
Qed.

Lemma omap_available_excluding used_ids model_lookup (bio_data : list BioItem.t) :
  omap (available_character used_ids model_lookup) bio_data
  = filter (fun item => Character.id item ∉ used_ids)
           (omap (available_character ∅ model_lookup) bio_data).
Proof.
  induction bio_data as [|bio_item bio_data IH]; [done|]. simpl.
  rewrite available_character_excluding.
  destruct (available_character ∅ model_lookup bio_item) as [item|]; [|done].
  destruct (decide (Character.id item ∉ used_ids)).
  - rewrite filter_cons_True by done. f_equal. apply IH.
  - rewrite filter_cons_False by done. apply IH.
Qed.

Lemma omap_length_le {A B} (f : A → option B) (l : list A) :
  length (omap f l) ≤ length l.
Proof.
  induction l as [|x l IH]; [done|].
  change (omap f (x :: l))
    with (match f x with Some y => y :: omap f l | None => omap f l end).
  destruct (f x); simpl; lia.
Qed.

(** X4.  The join of the prepare flow keeps exactly the biography entries
    whose identifier ([character_json], else [id]) is a non-empty string, is
    a key of the model lookup, and has a non-empty English keyword list
    there; the joined record carries that identifier and those keywords.
    The keyword pool holds exactly the keywords of the joined characters,
    and no more characters are joined than there are biography entries. *)
Theorem prepare_join_characters_and_pool
    (model_lookup : gmap string ModelItem.t) (bio_data : list BioItem.t) :
  (∀ item,
     item ∈ (PrepareData.join model_lookup bio_data).1 ↔
     ∃ bio_item model_item,
       bio_item ∈ bio_data ∧
       py_or (BioItem.character_json bio_item) (BioItem.id bio_item)
         = Some (Character.id item) ∧
       Character.id item ≠ "" ∧
       model_lookup !! Character.id item = Some model_item ∧
       english_keywords model_item ≠ [] ∧
       item = joined_record (Character.id item) bio_item
                            (english_keywords model_item)) ∧
  (∀ keyword,
     keyword ∈ (PrepareData.join model_lookup bio_data).2 ↔
     ∃ item, item ∈ (PrepareData.join model_lookup bio_data).1 ∧
             keyword ∈ Character.model_keywords item) ∧
  length (PrepareData.join model_lookup bio_data).1 ≤ length bio_data.
Proof.
  rewrite prepare_join_append, append_join_state. simpl.
  split; [|split].
  - intros item. rewrite list_elem_of_omap. split.
    + intros (bio_item & Hbio & Hav).
      apply available_character_Some in Hav
        as (model_item & Hid & Hne & _ & Hlookup & Hkw & Hitem).
      by exists bio_item, model_item.
    + intros (bio_item & model_item & Hbio & Hid & Hne & Hlookup & Hkw & Hitem).
      exists bio_item. split; [done|]. apply available_character_Some.
      exists model_item. by repeat split.
  - intros keyword. apply elem_of_keyword_union.
  - apply omap_length_le.
Qed.

(** X5.  The join of the append flow keeps the characters the prepare flow
    would join, in the same order, minus those whose identifier is in the
    exclusion set.  Its keyword pool holds exactly the keywords of the
    characters that remain, so it is a subset of the prepare flow's pool: a
    keyword carried only by excluded characters is never offered as a
    distractor.  With an empty exclusion set the two joins coincide. *)
Theorem append_join_is_filtered_prepare_join
    (used_ids : gset string) (model_lookup : gmap string ModelItem.t)
    (bio_data : list BioItem.t) :
  (AddSamples.join used_ids model_lookup bio_data).1
    = filter (fun item => Character.id item ∉ used_ids)
             (PrepareData.join model_lookup bio_data).1 ∧
  (∀ keyword,
     keyword ∈ (AddSamples.join used_ids model_lookup bio_data).2 ↔
     ∃ item, item ∈ (AddSamples.join used_ids model_lookup bio_data).1 ∧
             keyword ∈ Character.model_keywords item) ∧
  (AddSamples.join used_ids model_lookup bio_data).2
    ⊆ (PrepareData.join model_lookup bio_data).2 ∧
  AddSamples.join ∅ model_lookup bio_data = PrepareData.join model_lookup bio_data.
Proof.
  rewrite prepare_join_append, !append_join_state. simpl.
  split; [apply omap_available_excluding|]. split; [|split; [|done]].
  - intros keyword. apply elem_of_keyword_union.
  - intros keyword. rewrite !elem_of_keyword_union.
    intros (item & Hitem & Hk). exists item. split; [|done].
    rewrite omap_available_excluding in Hitem.
    by apply list_elem_of_filter in Hitem as [_ ?].
Qed.

(** ** The samplers *)

(** X6.  The sampler of the prepare flow, for every state of the generator:
    it raises only for a negative [sample_size], and then always; when at
    least as many characters are requested as were joined it returns all of
    them in their order and leaves the generator untouched; otherwise it
    returns exactly [sample_size] characters taken at distinct positions of
    the joined list. *)
Theorem prepare_sampler_cases
    (sample_size : Z) (joined_data : list Character.t) (g : rng) :
  match PrepareData.select_samples sample_size joined_data g with
  | Raise _ => (sample_size < 0)%Z
  | Ok sampled g' =>
      (0 ≤ sample_size)%Z ∧
      ((Z.of_nat (length joined_data) ≤ sample_size)%Z →
         sampled = joined_data ∧ g' = g) ∧
      ((sample_size < Z.of_nat (length joined_data))%Z →
         Z.of_nat (length sampled) = sample_size ∧
         ∃ rest, sampled ++ rest ≡ₚ joined_data)
  end.
Proof.
  unfold PrepareData.select_samples. case_bool_decide as Hmore.
  - destruct (Z_lt_le_dec sample_size 0) as [Hneg|Hpos].
    + destruct (sample_raises joined_data sample_size g ltac:(lia)) as [msg ->].
      done.
    + destruct (sample_ok joined_data sample_size g ltac:(lia))
        as (sampled & g' & -> & Hlen & Hrest).
      split; [done|]. split; [lia|]. intros _. split; [lia|done].
  - split; [lia|]. split; [done|lia].
Qed.

(** X7.  The sampler of the append flow, for every state of the generator:
    it raises only for a negative [num_samples], and then always; when fewer
    characters are available than requested it returns all of them in their
    order and leaves the generator untouched; otherwise it returns exactly
    [num_samples] characters taken at distinct positions of the available
    list. *)
Theorem append_sampler_cases
    (num_samples : Z) (available_data : list Character.t) (g : rng) :
  match AddSamples.select_samples num_samples available_data g with
  | Raise _ => (num_samples < 0)%Z
  | Ok sampled g' =>
      (0 ≤ num_samples)%Z ∧
      ((Z.of_nat (length available_data) < num_samples)%Z →
         sampled = available_data ∧ g' = g) ∧
      ((num_samples ≤ Z.of_nat (length available_data))%Z →
         Z.of_nat (length sampled) = num_samples ∧
         ∃ rest, sampled ++ rest ≡ₚ available_data)
  end.
Proof.
  unfold AddSamples.select_samples. case_bool_decide as Hfew.
  - split; [lia|]. split; [done|lia].
  - destruct (Z_lt_le_dec num_samples 0) as [Hneg|Hpos].
    + destruct (sample_raises available_data num_samples g ltac:(lia)) as [msg ->].
      done.
    + destruct (sample_ok available_data num_samples g ltac:(lia))
        as (sampled & g' & -> & Hlen & Hrest).
      split; [done|]. split; [lia|]. intros _. split; [lia|done].
Qed.

(** ** Candidate lists: shortfall, bounds and edge sizes *)

(** The outcome of the candidate construction for a non-negative size: a
    rearrangement of a truncation of the true keywords, or of the true
    keywords followed by distractors. *)
Lemma shuffled_candidates_outcome candidate_pool_size all_keywords_list
    true_keywords g :
  (0 ≤ candidate_pool_size)%Z →
  ∃ shuffled g',
    shuffled_candidates candidate_pool_size all_keywords_list true_keywords g
      = Ok shuffled g' ∧
    ((candidate_pool_size < Z.of_nat (length true_keywords))%Z →
       Z.of_nat (length shuffled) = candidate_pool_size ∧
       ∃ dropped, shuffled ++ dropped ≡ₚ true_keywords) ∧
    ((Z.of_nat (length true_keywords) ≤ candidate_pool_size)%Z →
       ∃ distractors rest,
         shuffled ≡ₚ true_keywords ++ distractors ∧
         distractors ++ rest
           ≡ₚ possible_distractors all_keywords_list true_keywords ∧
         (Z.of_nat (length true_keywords) + Z.of_nat (length distractors)
            ≤ candidate_pool_size)%Z).
Proof.
  intros Hpos.
  destruct (Z_lt_le_dec candidate_pool_size (Z.of_nat (length true_keywords)))
    as [Hlt|Hle].
  - destruct (unshuffled_truncate candidate_pool_size all_keywords_list
                true_keywords g ltac:(lia)) as (sampled & g1 & Hu & Hlen & [rest Hrest]).
    destruct (shuffled_of_unshuffled _ _ _ _ _ _ Hu) as (shuffled & g' & Hs & Hperm).
    exists shuffled, g'. split; [done|]. split; [|lia].
    intros _. split; [by rewrite Hperm|]. exists rest. by rewrite Hperm.
  - destruct (unshuffled_fill candidate_pool_size all_keywords_list true_keywords
                g Hle) as (ds & g1 & Hc & Hu & [rest Hrest] & Hlen).
    destruct (shuffled_of_unshuffled _ _ _ _ _ _ Hu) as (shuffled & g' & Hs & Hperm).
    exists shuffled, g'. split; [done|]. split; [lia|].
    intros _. exists ds, rest. split; [done|]. split; [done|].
    destruct (Z_lt_le_dec
                (Z.of_nat (length (possible_distractors all_keywords_list true_keywords)))
                (candidate_pool_size - Z.of_nat (length true_keywords)))
      as [Hshort|Henough].
    + apply Permutation_length in Hrest. rewrite length_app in Hrest. lia.
    + specialize (Hlen Henough). lia.
Qed.

(** X8.  When the character has at most [candidate_pool_size] true keywords
    but fewer eligible distractors than the missing number, every eligible
    distractor is used: for every state of the generator the shuffled list is
    a rearrangement of the true keywords followed by all pool keywords that
    are not true keywords, and it has fewer than [candidate_pool_size]
    entries.  The prepare flow emits that list, the append flow emits it
    followed by the sentinel. *)
Theorem candidates_with_too_few_distractors
    (candidate_pool_size : Z) (all_keywords_list true_keywords : list string)
    (g : rng) :
  (Z.of_nat (length true_keywords) ≤ candidate_pool_size)%Z →
  (Z.of_nat (length (possible_distractors all_keywords_list true_keywords))
     < candidate_pool_size - Z.of_nat (length true_keywords))%Z →
  ∃ shuffled g',
    PrepareData.build_candidates candidate_pool_size all_keywords_list
                                 true_keywords g = Ok shuffled g' ∧
    AddSamples.build_candidates candidate_pool_size all_keywords_list
                                true_keywords g = Ok (shuffled ++ [sentinel]) g' ∧
    shuffled ≡ₚ true_keywords ++ possible_distractors all_keywords_list true_keywords ∧
    (Z.of_nat (length shuffled) < candidate_pool_size)%Z.
Proof.
  intros Hn Hshort.
  assert (unshuffled_candidates candidate_pool_size all_keywords_list true_keywords g
          = Ok (true_keywords ++ possible_distractors all_keywords_list true_keywords) g)
    as Hu.
  { unfold unshuffled_candidates. rewrite bool_decide_eq_false_2 by lia.
    unfold choose_distractors. by rewrite bool_decide_eq_true_2 by lia. }
  destruct (shuffled_of_unshuffled _ _ _ _ _ _ Hu) as (shuffled & g' & Hs & Hperm).
  exists shuffled, g'. split; [done|].
  split; [by apply add_samples_of_shuffled|]. split; [done|].
  rewrite Hperm, length_app. lia.
Qed.

(** The hypotheses of [candidates_with_too_few_distractors] hold for two true
    keywords, one eligible distractor and [candidate_pool_size = 5]. *)
Lemma candidates_with_too_few_distractors_witness :
  (Z.of_nat (length ["brave"; "kind"]) ≤ 5)%Z ∧
  (Z.of_nat (length (possible_distractors ["brave"; "kind"; "shy"] ["brave"; "kind"]))
     < 5 - Z.of_nat (length ["brave"; "kind"]))%Z ∧
  ∃ shuffled g',
    PrepareData.build_candidates 5 ["brave"; "kind"; "shy"] ["brave"; "kind"] [1; 4]
      = Ok shuffled g' ∧
    AddSamples.build_candidates 5 ["brave"; "kind"; "shy"] ["brave"; "kind"] [1; 4]
      = Ok (shuffled ++ [sentinel]) g' ∧
    shuffled ≡ₚ ["brave"; "kind"]
                 ++ possible_distractors ["brave"; "kind"; "shy"] ["brave"; "kind"] ∧
    (Z.of_nat (length shuffled) < 5)%Z.
Proof.
  assert (Z.of_nat (length ["brave"; "kind"]) ≤ 5)%Z as H1 by (simpl; lia).
  assert (Z.of_nat (length (possible_distractors ["brave"; "kind"; "shy"]
                              ["brave"; "kind"]))
            < 5 - Z.of_nat (length ["brave"; "kind"]))%Z as H2
    by (vm_compute; reflexivity).
  split; [exact H1|]. split; [exact H2|].
  exact (candidates_with_too_few_distractors 5 ["brave"; "kind"; "shy"]
           ["brave"; "kind"] [1; 4] H1 H2).
Defined.

(** X9.  Edge sizes, for every keyword list, pool and state of the
    generator: a negative [candidate_pool_size] makes both flows raise
    [ValueError]; with [candidate_pool_size = 0] the prepare flow emits the
    empty list and the append flow the sentinel alone, and no randomness is
    consumed. *)
Theorem candidates_for_degenerate_sizes
    (all_keywords_list true_keywords : list string) (g : rng) :
  (∀ candidate_pool_size, (candidate_pool_size < 0)%Z →
     ∃ msg,
       PrepareData.build_candidates candidate_pool_size all_keywords_list
                                    true_keywords g = Raise (ValueError msg) ∧
       AddSamples.build_candidates candidate_pool_size all_keywords_list
                                   true_keywords g = Raise (ValueError msg)) ∧
  PrepareData.build_candidates 0 all_keywords_list true_keywords g = Ok [] g ∧
  AddSamples.build_candidates 0 all_keywords_list true_keywords g
    = Ok ["None of the above"] g.
Proof.
  split.
  { intros candidate_pool_size Hneg.
    destruct (shuffled_raises candidate_pool_size all_keywords_list true_keywords
                g Hneg) as [msg Hr].
    exists msg. split; [done|].
    unfold AddSamples.build_candidates. by rewrite (bind_Raise _ _ _ _ Hr). }
  assert (shuffled_candidates 0 all_keywords_list true_keywords g = Ok [] g) as Hs.
  { unfold shuffled_candidates.
    assert (unshuffled_candidates 0 all_keywords_list true_keywords g = Ok [] g)
      as Hu; [|by rewrite (bind_Ok _ _ _ _ _ Hu)].
    unfold unshuffled_candidates. destruct true_keywords as [|kw kws].
    - rewrite bool_decide_eq_false_2 by (simpl; lia).
      assert (choose_distractors (0 - Z.of_nat (length (@nil string)))
                all_keywords_list [] g = Ok [] g) as Hc;
        [|by rewrite (bind_Ok _ _ _ _ _ Hc)].
      unfold choose_distractors. rewrite bool_decide_eq_false_2 by (simpl; lia).
      unfold sample. by rewrite bool_decide_eq_true_2 by (simpl; lia).
    - rewrite bool_decide_eq_true_2 by (simpl length; lia).
      unfold sample. by rewrite bool_decide_eq_true_2 by (simpl length; lia). }
  split; [done|]. by rewrite (add_samples_of_shuffled _ _ _ _ _ _ Hs).
Qed.

(** Bounds and origin of the shuffled list, and when the construction
    raises. *)
Lemma shuffled_candidates_bounds candidate_pool_size all_keywords_list
    true_keywords g :
  match shuffled_candidates candidate_pool_size all_keywords_list true_keywords g with
  | Raise _ => (candidate_pool_size < 0)%Z
  | Ok shuffled g' =>
      (Z.of_nat (length shuffled) ≤ candidate_pool_size)%Z ∧
      (∀ k, k ∈ shuffled →
            k ∈ true_keywords ∨ (k ∈ all_keywords_list ∧ k ∉ true_keywords))
  end.
Proof.
  destruct (Z_lt_le_dec candidate_pool_size 0) as [Hneg|Hpos].
  { destruct (shuffled_raises candidate_pool_size all_keywords_list
                true_keywords g Hneg) as [msg ->]. done. }
  destruct (shuffled_candidates_outcome candidate_pool_size all_keywords_list
              true_keywords g Hpos) as (shuffled & g' & Hs & Htrunc & Hfill).
  rewrite Hs.
  destruct (Z_lt_le_dec candidate_pool_size (Z.of_nat (length true_keywords)))
    as [Hlt|Hle].
  - destruct (Htrunc Hlt) as [Hlen [dropped Hdropped]].
    split; [lia|].
    intros k Hk. left. rewrite <-Hdropped. apply elem_of_app. by left.
  - destruct (Hfill Hle) as (ds & rest & Hperm & Hrest & Hlen).
    assert (length shuffled = length true_keywords + length ds) as Hl.
    { by rewrite Hperm, length_app. }
    split; [lia|].
    intros k Hk. rewrite Hperm in Hk. apply elem_of_app in Hk as [Hk|Hk]; [by left|].
    right. by eapply distractors_not_true.
Qed.

(** X10.  For every run and every state of the generator: the run raises
    only for a negative [candidate_pool_size]; otherwise the shuffled list
    never has more than [candidate_pool_size] entries, and each entry is a
    true keyword or a pool keyword that is not a true keyword.  The prepare
    flow emits that list; the append flow emits it followed by the sentinel,
    so never more than [candidate_pool_size + 1] entries. *)
Theorem candidates_bounded_and_from_pool
    (candidate_pool_size : Z) (all_keywords_list true_keywords : list string)
    (g : rng) :
  match shuffled_candidates candidate_pool_size all_keywords_list true_keywords g with
  | Raise _ => (candidate_pool_size < 0)%Z
  | Ok shuffled g' =>
      PrepareData.build_candidates candidate_pool_size all_keywords_list
                                   true_keywords g = Ok shuffled g' ∧
      AddSamples.build_candidates candidate_pool_size all_keywords_list
                                  true_keywords g = Ok (shuffled ++ [sentinel]) g' ∧
      (Z.of_nat (length shuffled) ≤ candidate_pool_size)%Z ∧
      (Z.of_nat (length (shuffled ++ [sentinel])) ≤ candidate_pool_size + 1)%Z ∧
      (∀ k, k ∈ shuffled →
            k ∈ true_keywords ∨ (k ∈ all_keywords_list ∧ k ∉ true_keywords))
  end.
Proof.
  pose proof (shuffled_candidates_bounds candidate_pool_size all_keywords_list
                true_keywords g) as Hb.
  destruct (shuffled_candidates candidate_pool_size all_keywords_list
              true_keywords g) as [shuffled g'|e] eqn:Hs; [|done].
  destruct Hb as [Hlen Hin].
  split; [done|]. split; [by apply add_samples_of_shuffled|].
  split; [done|]. split; [|done]. rewrite length_app. simpl. lia.
Qed.

(** ** The rows the two scripts write *)

Lemma mapM_raises {A B} (f : A → M B) (xs : list A) :
  ∀ g e, mapM f xs g = Raise e → ∃ x g1, x ∈ xs ∧ f x g1 = Raise e.
Proof.
  induction xs as [|x xs IH]; intros g e Hm; simpl in Hm; [done|].
  unfold bind in Hm. destruct (f x g) as [y g1|e1] eqn:Hy.
  - destruct (mapM f xs g1) as [ys g2|e2] eqn:Hys; [done|].
    destruct (IH g1 e2 Hys) as (x' & g' & Hx' & Hr). simplify_eq.
    exists x', g'. split; [by apply list_elem_of_further|done].
  - simplify_eq. exists x, g. split; [apply list_elem_of_here|done].
Qed.

Lemma prepare_select_outcome sample_size (joined_data : list Character.t) g :
  match PrepareData.select_samples sample_size joined_data g with
  | Raise _ => (sample_size < 0)%Z
  | Ok sampled g' => ∃ rest, sampled ++ rest ≡ₚ joined_data
  end.
Proof.
  unfold PrepareData.select_samples. case_bool_decide as Hmore.
  - destruct (Z_lt_le_dec sample_size 0) as [Hneg|Hpos].
    + by destruct (sample_raises joined_data sample_size g ltac:(lia)) as [msg ->].
    + by destruct (sample_ok joined_data sample_size g ltac:(lia))
        as (sampled & g' & -> & Hlen & Hrest).
  - exists []. by rewrite app_nil_r.
Qed.

Lemma append_select_outcome num_samples (available_data : list Character.t) g :
  match AddSamples.select_samples num_samples available_data g with
  | Raise _ => (num_samples < 0)%Z
  | Ok sampled g' => ∃ rest, sampled ++ rest ≡ₚ available_data
  end.
Proof.
  unfold AddSamples.select_samples. case_bool_decide as Hfew.
  - exists []. by rewrite app_nil_r.
  - destruct (Z_lt_le_dec num_samples 0) as [Hneg|Hpos].
    + by destruct (sample_raises available_data num_samples g ltac:(lia)) as [msg ->].
    + by destruct (sample_ok available_data num_samples g ltac:(lia))
        as (sampled & g' & -> & Hlen & Hrest).
Qed.

(** A row of the prepare flow. *)
Lemma prepare_build_row_outcome candidate_pool_size all_keywords_list item g :
  match PrepareData.build_row candidate_pool_size all_keywords_list item g with
  | Raise _ => (candidate_pool_size < 0)%Z
  | Ok row g' =>
      Row.id row = Character.id item ∧
      Row.text row = display_text item ∧
      Row.model_keywords row = Character.model_keywords item ∧
      PrepareData.build_candidates candidate_pool_size all_keywords_list
                                   (Character.model_keywords item) g
        = Ok (Row.candidates row) g' ∧
      (Z.of_nat (length (Row.candidates row)) ≤ candidate_pool_size)%Z ∧
      (∀ k, k ∈ Row.candidates row →
            k ∈ Character.model_keywords item ∨ k ∈ all_keywords_list)
  end.
Proof.
  unfold PrepareData.build_row, PrepareData.build_candidates, mbind, M_bind, bind.
  pose proof (shuffled_candidates_bounds candidate_pool_size all_keywords_list
                (Character.model_keywords item) g) as Hb.
  destruct (shuffled_candidates _ _ _ g) as [shuffled g'|e]; [|done].
  destruct Hb as [Hlen Hin]. simpl. repeat split; try done.
  intros k Hk. destruct (Hin k Hk) as [?|[? _]]; auto.
Qed.

(** A row of the append flow. *)
Lemma append_build_row_outcome candidate_pool_size all_keywords_list item g :
  match AddSamples.build_row candidate_pool_size all_keywords_list item g with
  | Raise _ => (candidate_pool_size < 0)%Z
  | Ok row g' =>
      Row.id row = Character.id item ∧
      Row.text row = display_text item ∧
      Row.model_keywords row = Character.model_keywords item ∧
      AddSamples.build_candidates candidate_pool_size all_keywords_list
                                  (Character.model_keywords item) g
        = Ok (Row.candidates row) g' ∧
      ∃ shuffled,
        Row.candidates row = shuffled ++ [sentinel] ∧
        (Z.of_nat (length shuffled) ≤ candidate_pool_size)%Z ∧
        (∀ k, k ∈ shuffled →
              k ∈ Character.model_keywords item ∨ k ∈ all_keywords_list)
  end.
Proof.
  unfold AddSamples.build_row, AddSamples.build_candidates, mbind, M_bind, bind.
  pose proof (shuffled_candidates_bounds candidate_pool_size all_keywords_list
                (Character.model_keywords item) g) as Hb.
  destruct (shuffled_candidates _ _ _ g) as [shuffled g'|e]; [|done].
  destruct Hb as [Hlen Hin]. simpl. repeat split; try done.
  exists shuffled. repeat split; try done.
  intros k Hk. destruct (Hin k Hk) as [?|[? _]]; auto.
Qed.

Lemma Forall2_impl_Forall {A B} (P : A → Prop) (R Q : A → B → Prop)
    (l : list A) (k : list B) :
  Forall P l → Forall2 R l k → (∀ x y, P x → R x y → Q x y) → Forall2 Q l k.
Proof.
  intros HP HR Himpl. revert HP.
  induction HR as [|x y l k Hxy HR IH]; intros HP; [constructor|].
  apply Forall_cons in HP as [Hx HP]. constructor; auto.
Qed.

(** Every keyword of an available character is in the keyword pool. *)
Lemma append_join_keywords_in_pool used_ids model_lookup bio_data item keyword :
  item ∈ (AddSamples.join used_ids model_lookup bio_data).1 →
  keyword ∈ Character.model_keywords item →
  keyword ∈ (AddSamples.join used_ids model_lookup bio_data).2.
Proof.
  rewrite append_join_state. simpl. intros Hitem Hk.
  apply elem_of_keyword_union. by exists item.
Qed.

Lemma append_join_not_used used_ids model_lookup bio_data item :
  item ∈ (AddSamples.join used_ids model_lookup bio_data).1 →
  Character.id item ∉ used_ids.
Proof.
  rewrite append_join_state. simpl. intros Hitem.
  apply list_elem_of_omap in Hitem as (bio_item & _ & Hav).
  by apply available_character_Some in Hav as (? & _ & _ & ? & _).
Qed.

(** X11.  The rows of the prepare flow.  [main] raises only when
    [sample_size] or [candidate_pool_size] is negative.  Otherwise the rows
    correspond one to one, in order, to the characters the sampler returns
    for the joined list from the initial state of the generator (joined
    characters taken at distinct positions): each row carries the
    character's identifier, the text [<h1>name</h1><p>biography</p>] and, as
    [model_keywords], the character's complete keyword list as the model
    gave it; its candidate list is an outcome of the candidate construction
    for that keyword list over the enumerated keyword pool, has at most
    [candidate_pool_size] entries, and every entry is a keyword of the
    keyword pool. *)
Theorem prepare_main_rows
    (a : PrepareData.args) (model_data : list ModelItem.t)
    (bio_data : list BioItem.t) (g : rng) :
  match PrepareData.main a model_data bio_data g with
  | Raise _ =>
      (PrepareData.sample_size a < 0)%Z ∨ (PrepareData.candidate_pool_size a < 0)%Z
  | Ok rows g' =>
      ∃ sampled g1,
        PrepareData.select_samples
          (PrepareData.sample_size a)
          (PrepareData.join (build_model_lookup model_data) bio_data).1 g
          = Ok sampled g1 ∧
        (∃ rest,
           sampled ++ rest
             ≡ₚ (PrepareData.join (build_model_lookup model_data) bio_data).1) ∧
        length rows = length sampled ∧
        Forall2
          (fun item row =>
             Row.id row = Character.id item ∧
             Row.text row = display_text item ∧
             Row.model_keywords row = Character.model_keywords item ∧
             (∃ g2 g3,
                PrepareData.build_candidates
                  (PrepareData.candidate_pool_size a)
                  (elements (PrepareData.join (build_model_lookup model_data)
                                              bio_data).2)
                  (Character.model_keywords item) g2
                = Ok (Row.candidates row) g3) ∧
             (Z.of_nat (length (Row.candidates row))
                ≤ PrepareData.candidate_pool_size a)%Z ∧
             (∀ k, k ∈ Row.candidates row →
                   k ∈ (PrepareData.join (build_model_lookup model_data) bio_data).2))
          sampled rows
  end.
Proof.
  unfold PrepareData.main.
  pose proof (append_join_keywords_in_pool ∅ (build_model_lookup model_data) bio_data)
    as Hpool.
  rewrite <-prepare_join_append in Hpool.
  destruct (PrepareData.join (build_model_lookup model_data) bio_data)
    as [joined_data pool]. simpl in *.
  unfold mbind, M_bind, bind.
  pose proof (prepare_select_outcome (PrepareData.sample_size a) joined_data g) as Hsel.
  destruct (PrepareData.select_samples _ joined_data g) as [sampled g1|e];
    [|by left].
  destruct Hsel as [rest Hrest].
  destruct (mapM _ sampled g1) as [rows g2|e] eqn:Hrows.
  - exists sampled, g1. split; [done|]. split; [by exists rest|].
    apply mapM_outcomes in Hrows.
    split; [symmetry; by eapply Forall2_length|].
    apply (Forall2_impl_Forall (fun item => item ∈ joined_data) _ _ _ _
             ltac:(apply Forall_forall; intros item Hitem; rewrite <-Hrest;
                   apply elem_of_app; by left) Hrows).
    intros item row Hitem (g3 & g4 & Hrow).
    pose proof (prepare_build_row_outcome (PrepareData.candidate_pool_size a)
                  (elements pool) item g3) as Hb.
    rewrite Hrow in Hb. destruct Hb as (Hid & Htext & Hkw & Hc & Hlen & Hin).
    split; [done|]. split; [done|]. split; [done|].
    split; [by exists g3, g4|]. split; [done|].
    intros k Hk. destruct (Hin k Hk) as [Htrue|Hlist].
    + by eapply Hpool.
    + by apply elem_of_elements in Hlist.
  - right. apply mapM_raises in Hrows as (item & g3 & _ & Hrow).
    pose proof (prepare_build_row_outcome (PrepareData.candidate_pool_size a)
                  (elements pool) item g3) as Hb.
    by rewrite Hrow in Hb.
Qed.

(** X12.  The rows of the append flow.  [main] raises only when
    [num_samples] or [candidate_pool_size] is negative.  Otherwise the rows
    correspond one to one, in order, to the characters the sampler returns
    for the available list from the initial state of the generator
    (available characters taken at distinct positions): no row has the
    identifier of a record of the existing file; each row carries the
    character's identifier, text and complete model keyword list; its
    candidate list is an outcome of the candidate construction for that
    keyword list over the enumerated keyword pool; it ends with the
    sentinel, and before it come at most [candidate_pool_size] entries, each
    a keyword of the keyword pool. *)
Theorem append_main_rows_written
    (a : AddSamples.args) (existing_data : list AddSamples.existing_item)
    (model_data : list ModelItem.t) (bio_data : list BioItem.t) (g : rng) :
  match AddSamples.main a existing_data model_data bio_data g with
  | Raise _ =>
      (AddSamples.num_samples a < 0)%Z ∨ (AddSamples.candidate_pool_size a < 0)%Z
  | Ok rows g' =>
      ∃ sampled g1,
        AddSamples.select_samples
          (AddSamples.num_samples a)
          (AddSamples.join (AddSamples.build_used_ids existing_data)
                           (build_model_lookup model_data) bio_data).1 g
          = Ok sampled g1 ∧
        (∃ rest,
           sampled ++ rest
             ≡ₚ (AddSamples.join (AddSamples.build_used_ids existing_data)
                                 (build_model_lookup model_data) bio_data).1) ∧
        length rows = length sampled ∧
        Forall2
          (fun item row =>
             Row.id row = Character.id item ∧
             (∀ old, old ∈ existing_data →
                     AddSamples.existing_id old ≠ Row.id row) ∧
             Row.text row = display_text item ∧
             Row.model_keywords row = Character.model_keywords item ∧
             (∃ g2 g3,
                AddSamples.build_candidates
                  (AddSamples.candidate_pool_size a)
                  (elements (AddSamples.join
                               (AddSamples.build_used_ids existing_data)
                               (build_model_lookup model_data) bio_data).2)
                  (Character.model_keywords item) g2
                = Ok (Row.candidates row) g3) ∧
             ∃ shuffled,
               Row.candidates row = shuffled ++ ["None of the above"] ∧
               (Z.of_nat (length shuffled) ≤ AddSamples.candidate_pool_size a)%Z ∧
               (∀ k, k ∈ shuffled →
                     k ∈ (AddSamples.join (AddSamples.build_used_ids existing_data)
                                          (build_model_lookup model_data)
                                          bio_data).2))
          sampled rows
  end.
Proof.
  unfold AddSamples.main.
  pose proof (append_join_keywords_in_pool (AddSamples.build_used_ids existing_data)
                (build_model_lookup model_data) bio_data) as Hpool.
  pose proof (append_join_not_used (AddSamples.build_used_ids existing_data)
                (build_model_lookup model_data) bio_data) as Hused.
  destruct (AddSamples.join _ (build_model_lookup model_data) bio_data)
    as [available_data pool]. simpl in *.
  unfold mbind, M_bind, bind.
  pose proof (append_select_outcome (AddSamples.num_samples a) available_data g)
    as Hsel.
  destruct (AddSamples.select_samples _ available_data g) as [sampled g1|e];
    [|by left].
  destruct Hsel as [rest Hrest].
  destruct (mapM _ sampled g1) as [rows g2|e] eqn:Hrows.
  - exists sampled, g1. split; [done|]. split; [by exists rest|].
    apply mapM_outcomes in Hrows.
    split; [symmetry; by eapply Forall2_length|].
    apply (Forall2_impl_Forall (fun item => item ∈ available_data) _ _ _ _
             ltac:(apply Forall_forall; intros item Hitem; rewrite <-Hrest;
                   apply elem_of_app; by left) Hrows).
    intros item row Hitem (g3 & g4 & Hrow).
    pose proof (append_build_row_outcome (AddSamples.candidate_pool_size a)
                  (elements pool) item g3) as Hb.
    rewrite Hrow in Hb.
    destruct Hb as (Hid & Htext & Hkw & Hbuilt & shuffled & Hc & Hlen & Hin).
    split; [done|]. split.
    { intros old Hold Heq. apply (Hused item Hitem).
      apply elem_of_build_used_ids. exists old. split; [done|]. congruence. }
    split; [done|]. split; [done|]. split; [by exists g3, g4|].
    exists shuffled. split; [done|]. split; [done|].
    intros k Hk. destruct (Hin k Hk) as [Htrue|Hlist].
    + by eapply Hpool.
    + by apply elem_of_elements in Hlist.
  - right. apply mapM_raises in Hrows as (item & g3 & _ & Hrow).
    pose proof (append_build_row_outcome (AddSamples.candidate_pool_size a)
                  (elements pool) item g3) as Hb.
    by rewrite Hrow in Hb.
Qed.

(** ** Ranges and extreme values of the overlap metrics *)

Section MetricRanges.
Local Open Scope R_scope.

Lemma ratio_range (x y : R) : 0 <= x <= y → 0 < y → 0 <= x / y <= 1.
Proof.
  intros Hx Hy. assert (x / y * y = x) as Hq by (field; lra).
  set (q := x / y) in *. split; nra.
Qed.

Lemma harmonic_range (p r : R) :
  0 <= p <= 1 → 0 <= r <= 1 → 0 < p + r → 0 <= 2 * p * r / (p + r) <= 1.
Proof. intros Hp Hr Hs. apply ratio_range; [|done]. split; nra. Qed.

Lemma size_pos_INR (s : gset string) : s ≠ ∅ → 0 < INR (size s).
Proof.
  intros Hne. apply lt_0_INR. apply Nat.neq_0_lt_0.
  intros H0. by apply size_empty_iff, leibniz_equiv in H0.
Qed.

Lemma nonempty_union_l (predicted actual : gset string) :
  ¬ (predicted = ∅ ∧ actual = ∅) → predicted ∪ actual ≠ ∅.
Proof.
  intros Hne Hempty. apply Hne.
  apply empty_union_L in Hempty. done.
Qed.

Lemma size_inter_le_l (predicted actual : gset string) :
  0 <= INR (size (predicted ∩ actual)) <= INR (size predicted).
Proof.
  split; [apply pos_INR|]. apply le_INR, subseteq_size.
  apply intersection_subseteq_l.
Qed.

Lemma size_inter_le_r (predicted actual : gset string) :
  0 <= INR (size (predicted ∩ actual)) <= INR (size actual).
Proof.
  split; [apply pos_INR|]. apply le_INR, subseteq_size.
  apply intersection_subseteq_r.
Qed.

Lemma size_inter_le_union (predicted actual : gset string) :
  0 <= INR (size (predicted ∩ actual)) <= INR (size (predicted ∪ actual)).
Proof.
  split; [apply pos_INR|]. apply le_INR, subseteq_size.
  etrans; [apply intersection_subseteq_l|apply union_subseteq_l].
Qed.

(** The four scores of two sets that are not both empty, with the set
    emptiness tests resolved. *)
Lemma precision_range (predicted actual : gset string) :
  0 <= (if Overlap.nonempty predicted
        then INR (size (predicted ∩ actual)) / INR (size predicted) else 0) <= 1.
Proof.
  destruct (decide (predicted = ∅)) as [H|H].
  - rewrite (nonempty_false _ H). lra.
  - rewrite (nonempty_true _ H).
    apply ratio_range; [apply size_inter_le_l|by apply size_pos_INR].
Qed.

Lemma recall_range (predicted actual : gset string) :
  0 <= (if Overlap.nonempty actual
        then INR (size (predicted ∩ actual)) / INR (size actual) else 0) <= 1.
Proof.
  destruct (decide (actual = ∅)) as [H|H].
  - rewrite (nonempty_false _ H). lra.
  - rewrite (nonempty_true _ H).
    apply ratio_range; [apply size_inter_le_r|by apply size_pos_INR].
Qed.

Lemma metrics_dict_Forall (P : R → Prop) (precision recall f1 jaccard : R) :
  P precision → P recall → P f1 → P jaccard →
  map_Forall (fun _ value => P value)
             (Overlap.metrics_dict precision recall f1 jaccard).
Proof.
  intros Hp Hr Hf Hj. unfold Overlap.metrics_dict.
  repeat (apply map_Forall_insert_2; [done|]). apply map_Forall_empty.
Qed.

(** [compute_metrics] always returns the four-key dictionary, with every
    score between 0 and 1. *)
Lemma compute_metrics_as_dict (predicted actual : gset string) :
  ∃ precision recall f1 jaccard : R,
    Overlap.compute_metrics predicted actual
      = Overlap.metrics_dict precision recall f1 jaccard ∧
    0 <= precision <= 1 ∧ 0 <= recall <= 1 ∧ 0 <= f1 <= 1 ∧ 0 <= jaccard <= 1.
Proof.
  destruct (decide (predicted = ∅ ∧ actual = ∅)) as [[-> ->]|Hne].
  { exists 1, 1, 1, 1. rewrite compute_metrics_both_empty.
    split; [done|]. repeat split; lra. }
  rewrite (compute_metrics_not_both_empty _ _ Hne). cbv zeta.
  pose proof (precision_range predicted actual) as Hp.
  pose proof (recall_range predicted actual) as Hr.
  eexists _, _, _, _. split; [reflexivity|].
  split; [done|]. split; [done|]. split.
  - destruct (Rlt_dec _ _); [by apply harmonic_range|lra].
  - rewrite (nonempty_true _ (nonempty_union_l _ _ Hne)).
    apply ratio_range; [apply size_inter_le_union|].
    apply size_pos_INR. by apply nonempty_union_l.
Qed.

(** X13.  Every score [compute_metrics] returns lies between 0 and 1. *)
Theorem compute_metrics_in_unit_interval (predicted actual : gset string) :
  map_Forall (fun _ value => 0 <= value <= 1)
             (Overlap.compute_metrics predicted actual).
Proof.
  destruct (compute_metrics_as_dict predicted actual)
    as (precision & recall & f1 & jaccard & -> & Hp & Hr & Hf & Hj).
  by apply metrics_dict_Forall.
Qed.

Lemma ratio_eq_1 (x y : R) : 0 < y → x / y = 1 ↔ x = y.
Proof.
  intros Hy. split.
  - intros H. assert (x / y * y = x) as Hq by (field; lra). rewrite H in Hq. lra.
  - intros ->. field. lra.
Qed.

Lemma ratio_eq_0 (x y : R) : 0 < y → x / y = 0 ↔ x = 0.
Proof.
  intros Hy. split.
  - intros H. assert (x / y * y = x) as Hq by (field; lra). rewrite H in Hq. lra.
  - intros ->. unfold Rdiv. ring.
Qed.

Lemma inter_size_eq_union (predicted actual : gset string) :
  size (predicted ∩ actual) = size (predicted ∪ actual) ↔ predicted = actual.
Proof.
  split.
  - intros Hsize.
    assert (predicted ∩ actual = predicted ∪ actual) as Heq.
    { apply (set_subseteq_size_eq (predicted ∩ actual) (predicted ∪ actual));
        [|lia].
      etrans; [apply intersection_subseteq_l|apply union_subseteq_l]. }
    apply leibniz_equiv. intros k. split; intros Hk.
    + assert (k ∈ predicted ∪ actual) as Hu by (apply elem_of_union; by left).
      rewrite <-Heq in Hu. by apply elem_of_intersection in Hu as [_ ?].
    + assert (k ∈ predicted ∪ actual) as Hu by (apply elem_of_union; by right).
      rewrite <-Heq in Hu. by apply elem_of_intersection in Hu as [? _].
  - intros ->. by rewrite (idemp_L (∩)), (idemp_L (∪)).
Qed.

(** X14.  The Jaccard score is 1 exactly when the annotated and the model
    keyword sets are equal (two empty sets included). *)
Theorem jaccard_one_iff_equal (predicted actual : gset string) :
  Overlap.compute_metrics predicted actual !! "jaccard" = Some 1
  ↔ predicted = actual.
Proof.
  destruct (decide (predicted = ∅ ∧ actual = ∅)) as [[-> ->]|Hne].
  { by rewrite compute_metrics_both_empty, metrics_dict_jaccard. }
  rewrite (compute_metrics_not_both_empty _ _ Hne). cbv zeta.
  rewrite metrics_dict_jaccard.
  rewrite (nonempty_true _ (nonempty_union_l _ _ Hne)).
  rewrite <-inter_size_eq_union.
  pose proof (size_pos_INR _ (nonempty_union_l _ _ Hne)) as Hpos. split.
  - intros [= H]. apply INR_eq. by apply (proj1 (ratio_eq_1 _ _ Hpos)).
  - intros H. f_equal. apply (proj2 (ratio_eq_1 _ _ Hpos)). by rewrite H.
Qed.

Lemma inter_size_pos (predicted actual : gset string) :
  predicted ∩ actual ≠ ∅ →
  predicted ≠ ∅ ∧ actual ≠ ∅ ∧ 0 < INR (size (predicted ∩ actual)).
Proof.
  intros Hne. split; [|split; [|by apply size_pos_INR]].
  - intros ->. apply Hne. apply (left_absorb_L ∅ (∩)).
  - intros ->. apply Hne. apply (right_absorb_L ∅ (∩)).
Qed.

(** X15.  Each of the four scores is 0 exactly when the two sets share no
    keyword and are not both empty; in particular an empty annotation
    against a non-empty model set scores 0 everywhere, and a single shared
    keyword makes all four scores positive. *)
Theorem scores_zero_iff_disjoint (predicted actual : gset string) :
  (Overlap.compute_metrics predicted actual !! "precision" = Some 0
     ↔ predicted ∩ actual = ∅ ∧ ¬ (predicted = ∅ ∧ actual = ∅)) ∧
  (Overlap.compute_metrics predicted actual !! "recall" = Some 0
     ↔ predicted ∩ actual = ∅ ∧ ¬ (predicted = ∅ ∧ actual = ∅)) ∧
  (Overlap.compute_metrics predicted actual !! "f1" = Some 0
     ↔ predicted ∩ actual = ∅ ∧ ¬ (predicted = ∅ ∧ actual = ∅)) ∧
  (Overlap.compute_metrics predicted actual !! "jaccard" = Some 0
     ↔ predicted ∩ actual = ∅ ∧ ¬ (predicted = ∅ ∧ actual = ∅)).
Proof.
  destruct (decide (predicted = ∅ ∧ actual = ∅)) as [[-> ->]|Hne].
  { rewrite compute_metrics_both_empty.
    rewrite metrics_dict_precision, metrics_dict_recall, metrics_dict_f1,
            metrics_dict_jaccard.
    split; [|split; [|split]];
      (split; [intros [= Hv]; lra|intros [_ Hb]; exfalso; apply Hb; by split]). }
  destruct (decide (predicted ∩ actual = ∅)) as [Hdisj|Hmeet].
  { rewrite (compute_metrics_disjoint _ _ Hdisj Hne).
    rewrite metrics_dict_precision, metrics_dict_recall, metrics_dict_f1,
            metrics_dict_jaccard.
    split; [|split; [|split]]; (split; [by intros _|by intros _]). }
  destruct (inter_size_pos _ _ Hmeet) as (Hp & Ha & Hi).
  rewrite (compute_metrics_not_both_empty _ _ Hne). cbv zeta.
  rewrite metrics_dict_precision, metrics_dict_recall, metrics_dict_f1,
          metrics_dict_jaccard.
  rewrite (nonempty_true _ Hp), (nonempty_true _ Ha),
          (nonempty_true _ (nonempty_union_l _ _ Hne)).
  pose proof (size_pos_INR _ Hp) as Hsp. pose proof (size_pos_INR _ Ha) as Hsa.
  pose proof (size_pos_INR _ (nonempty_union_l _ _ Hne)) as Hsu.
  assert (0 < INR (size (predicted ∩ actual)) / INR (size predicted)) as Hprec
    by (by apply Rdiv_lt_0_compat).
  assert (0 < INR (size (predicted ∩ actual)) / INR (size actual)) as Hrec
    by (by apply Rdiv_lt_0_compat).
  assert (0 < INR (size (predicted ∩ actual)) / INR (size (predicted ∪ actual)))
    as Hjac by (by apply Rdiv_lt_0_compat).
  set (p := INR (size (predicted ∩ actual)) / INR (size predicted)) in *.
  set (r := INR (size (predicted ∩ actual)) / INR (size actual)) in *.
  destruct (Rlt_dec 0 (p + r)) as [Hsum|Hsum]; [|lra].
  assert (0 < 2 * p * r / (p + r)) as Hf1
    by (apply Rdiv_lt_0_compat; [nra|done]).
  split; [|split; [|split]];
    (split; [intros [= Hv]; lra|intros [Hd _]; done]).
Qed.

(** X16.  Outside the case of two empty sets, the F1 score is the Dice
    coefficient of the two sets, [2·|predicted ∩ actual| / (|predicted| +
    |actual|)] (in exact arithmetic); for two empty sets it is 1. *)
Theorem f1_is_dice_coefficient (predicted actual : gset string) :
  Overlap.compute_metrics predicted actual !! "f1" =
  Some (if decide (predicted = ∅ ∧ actual = ∅) then 1
        else 2 * INR (size (predicted ∩ actual))
             / (INR (size predicted) + INR (size actual))).
Proof.
  destruct (decide (predicted = ∅ ∧ actual = ∅)) as [[-> ->]|Hne].
  { by rewrite compute_metrics_both_empty, metrics_dict_f1. }
  destruct (decide (predicted ∩ actual = ∅)) as [Hdisj|Hmeet].
  { rewrite (compute_metrics_disjoint _ _ Hdisj Hne), metrics_dict_f1.
    rewrite Hdisj, size_empty. simpl INR. f_equal. unfold Rdiv. ring. }
  destruct (inter_size_pos _ _ Hmeet) as (Hp & Ha & Hi).
  rewrite (compute_metrics_not_both_empty _ _ Hne). cbv zeta.
  rewrite metrics_dict_f1, (nonempty_true _ Hp), (nonempty_true _ Ha).
  pose proof (size_pos_INR _ Hp) as Hsp. pose proof (size_pos_INR _ Ha) as Hsa.
  set (i := INR (size (predicted ∩ actual))) in *.
  set (sp := INR (size predicted)) in *. set (sa := INR (size actual)) in *.
  assert (0 < i / sp) by (by apply Rdiv_lt_0_compat).
  assert (0 < i / sa) by (by apply Rdiv_lt_0_compat).
  destruct (Rlt_dec 0 (i / sp + i / sa)) as [Hsum|Hsum]; [|lra].
  f_equal. field. repeat split; nra.
Qed.
End MetricRanges.

(** ** The keys and the range of the aggregate *)

Lemma summaries_only_for_keys (aggregate : gmap string (list R)) (k : string) :
  is_Some (map_fold Overlap.add_summary ∅ aggregate !! k) →
  ∃ key v vs, aggregate !! key = Some (v :: vs) ∧
              (k = key +:+ "_mean" ∨ k = key +:+ "_std").
Proof.
  revert k.
  apply (map_fold_weak_ind
           (fun (r : gmap string R) (m : gmap string (list R)) =>
              ∀ k, is_Some (r !! k) →
                   ∃ key v vs, m !! key = Some (v :: vs) ∧
                               (k = key +:+ "_mean" ∨ k = key +:+ "_std"))).
  - intros k [x Hx]. by rewrite lookup_empty in Hx.
  - intros i values m r Hi IH k Hk.
    assert (is_Some (r !! k) →
            ∃ key v vs, <[i := values]> m !! key = Some (v :: vs) ∧
                        (k = key +:+ "_mean" ∨ k = key +:+ "_std")) as Hold.
    { intros Hr. destruct (IH k Hr) as (key & v & vs & Hkey & Hform).
      exists key, v, vs. split; [|done].
      rewrite lookup_insert_ne; [done|]. intros ->. by rewrite Hi in Hkey. }
    destruct values as [|v vs]; simpl in Hk; [by apply Hold|].
    rewrite lookup_insert_eq in Hk.
    destruct (decide (k = i +:+ "_std")) as [->|Hstd].
    { exists i, v, vs. rewrite lookup_insert_eq. split; [done|by right]. }
    rewrite lookup_insert_ne in Hk by done.
    destruct (decide (k = i +:+ "_mean")) as [->|Hmean].
    { exists i, v, vs. rewrite lookup_insert_eq. split; [done|by left]. }
    rewrite lookup_insert_ne in Hk by done. by apply Hold.
Qed.

(** X17.  The aggregate has an entry under a name exactly when the name is
    [key_mean] or [key_std] for a key that has at least one value in the
    collection: no other names appear, and a key without a value gets no
    summary. *)
Theorem aggregate_keys (all_metrics : list (gmap string R)) (name : string) :
  is_Some (Overlap.compute_aggregate_metrics all_metrics !! name) ↔
  ∃ key, values_present key all_metrics ≠ [] ∧
         (name = key +:+ "_mean" ∨ name = key +:+ "_std").
Proof.
  split.
  - unfold Overlap.compute_aggregate_metrics.
    destruct all_metrics as [|metrics all_metrics].
    { intros [x Hx]. by rewrite lookup_empty in Hx. }
    intros Hname. apply summaries_only_for_keys in Hname
      as (key & v & vs & Hkey & Hform).
    exists key. split; [|done].
    rewrite lookup_collect_values in Hkey.
    by destruct (values_present key (metrics :: all_metrics)).
  - intros (key & Hpresent & [->| ->]);
      destruct (lookup_aggregate all_metrics key Hpresent) as [Hmean Hstd].
    + by rewrite Hmean.
    + by rewrite Hstd.
Qed.

Section AggregateRanges.
Local Open Scope R_scope.

Lemma total_bounds (lo hi : R) (values : list R) :
  Forall (fun x => lo <= x <= hi) values →
  lo * INR (length values) <= total values <= hi * INR (length values).
Proof.
  induction 1 as [|x values Hx _ IH].
  - simpl. lra.
  - change (total (x :: values)) with (x + total values).
    change (length (x :: values)) with (S (length values)).
    rewrite S_INR. lra.
Qed.

Lemma arithmetic_mean_range (values : list R) :
  values ≠ [] → Forall (fun x => 0 <= x <= 1) values →
  0 <= arithmetic_mean values <= 1.
Proof.
  intros Hne Hall. unfold arithmetic_mean.
  pose proof (total_bounds 0 1 values Hall) as Ht.
  apply ratio_range; [lra|].
  apply lt_0_INR. destruct values; [done|simpl; lia].
Qed.

Lemma population_std_range (values : list R) :
  values ≠ [] → Forall (fun x => 0 <= x <= 1) values →
  0 <= population_std values <= 1.
Proof.
  intros Hne Hall. unfold population_std.
  pose proof (arithmetic_mean_range values Hne Hall) as Hm.
  set (m := arithmetic_mean values) in *. clearbody m.
  assert (Forall (fun y => 0 <= y <= 1) (map (fun x => (x - m) ^ 2) values)) as Hsq.
  { apply Forall_map. eapply Forall_impl; [exact Hall|]. simpl. intros x Hx.
    assert (-1 <= x - m <= 1) as Hd by lra.
    set (d := x - m) in *. clearbody d.
    pose proof (Rmult_le_pos (1 - d) (1 + d) ltac:(lra) ltac:(lra)) as Hprod.
    pose proof (Rle_0_sqr d) as Hsqr. unfold Rsqr in Hsqr. lra. }
  pose proof (total_bounds 0 1 _ Hsq) as Ht. rewrite length_map in Ht.
  assert (0 < INR (length values)) as Hn.
  { apply lt_0_INR. destruct values; [done|simpl; lia]. }
  assert (0 <= total (map (fun x => (x - m) ^ 2) values) / INR (length values) <= 1)
    as Hv by (apply ratio_range; [lra|done]).
  split; [apply sqrt_pos|].
  rewrite <-sqrt_1. apply sqrt_le_1; lra.
Qed.
End AggregateRanges.

Section AggregatedScores.
Local Open Scope R_scope.

Lemma values_present_scores (key : string)
    (pairs : list (gset string * gset string)) :
  key ∈ ["precision"; "recall"; "f1"; "jaccard"] →
  length (values_present key
            (map (fun pair => Overlap.compute_metrics pair.1 pair.2) pairs))
    = length pairs ∧
  Forall (fun x => 0 <= x <= 1)
         (values_present key
            (map (fun pair => Overlap.compute_metrics pair.1 pair.2) pairs)).
Proof.
  intros Hkey. induction pairs as [|[predicted actual] pairs [IHlen IHall]];
    [by split|].
  unfold values_present in *. cbn [map omap list_omap fst snd].
  destruct (compute_metrics_as_dict predicted actual)
    as (precision & recall & f1 & jaccard & -> & Hp & Hr & Hf & Hj).
  assert (∃ value, Overlap.metrics_dict precision recall f1 jaccard !! key
                   = Some value ∧ 0 <= value <= 1) as (value & -> & Hvalue).
  { repeat (apply elem_of_cons in Hkey as [->|Hkey]); [..|by apply elem_of_nil in Hkey].
    - by exists precision.
    - by exists recall.
    - by exists f1.
    - by exists jaccard. }
  split; [simpl; by rewrite IHlen|]. by constructor.
Qed.

(** X18.  Aggregating the scores of one or more instances: for each of
    [precision], [recall], [f1] and [jaccard] the aggregate holds a mean
    between 0 and 1 and a standard deviation between 0 and 1, both computed
    over one value per instance. *)
Theorem aggregated_scores_in_unit_interval
    (pair : gset string * gset string) (pairs : list (gset string * gset string)) :
  Forall
    (fun key =>
       ∃ mean_value std_value,
         Overlap.compute_aggregate_metrics
           (map (fun pair => Overlap.compute_metrics pair.1 pair.2) (pair :: pairs))
           !! (key +:+ "_mean") = Some mean_value ∧
         Overlap.compute_aggregate_metrics
           (map (fun pair => Overlap.compute_metrics pair.1 pair.2) (pair :: pairs))
           !! (key +:+ "_std") = Some std_value ∧
         length (values_present key
                   (map (fun pair => Overlap.compute_metrics pair.1 pair.2)
                        (pair :: pairs)))
           = S (length pairs) ∧
         0 <= mean_value <= 1 ∧ 0 <= std_value <= 1)
    ["precision"; "recall"; "f1"; "jaccard"].
Proof.
  apply Forall_forall. intros key Hkey.
  destruct (values_present_scores key (pair :: pairs) Hkey) as [Hlen Hall].
  assert (values_present key
            (map (fun pair => Overlap.compute_metrics pair.1 pair.2) (pair :: pairs))
          ≠ []) as Hne.
  { intros Hnil. by rewrite Hnil in Hlen. }
  destruct (lookup_aggregate _ key Hne) as [Hmean Hstd].
  eexists _, _. split; [exact Hmean|]. split; [exact Hstd|]. split; [done|].
  split; [by apply arithmetic_mean_range|by apply population_std_range].
Qed.
End AggregatedScores.

(** ** Scoring one annotator, grouping, totals *)

Lemma scored_instance_Some original_lookup annotated_instance result :
  scored_instance original_lookup annotated_instance = Some result →
  ∃ original_instance,
    py_or (Overlap.AnnotatedInstance.instance_id annotated_instance)
          (Overlap.AnnotatedInstance.id annotated_instance)
      = Some (Overlap.InstanceResult.instance_id result) ∧
    Overlap.InstanceResult.instance_id result ≠ "" ∧
    original_lookup !! Overlap.InstanceResult.instance_id result
      = Some original_instance ∧
    Overlap.InstanceResult.model_keywords result
      = Overlap.extract_model_keywords original_instance ∧
    Overlap.InstanceResult.annotated_keywords result
      = Overlap.extract_annotated_keywords annotated_instance ∧
    Overlap.InstanceResult.metrics result
      = Overlap.compute_metrics (Overlap.InstanceResult.annotated_keywords result)
                                (Overlap.InstanceResult.model_keywords result).
Proof.
  unfold scored_instance.
  destruct (py_or _ _) as [instance_id|]; [|done].
  destruct (truthy (Some instance_id)) eqn:Htruthy; [|done].
  destruct (original_lookup !! instance_id) as [original_instance|] eqn:Hlookup;
    [|done].
  intros [= <-]. simpl. exists original_instance. repeat split; try done.
  intros ->. done.
Qed.

Lemma scored_instance_unknown original_lookup annotated_instance :
  (∀ instance_id,
     py_or (Overlap.AnnotatedInstance.instance_id annotated_instance)
           (Overlap.AnnotatedInstance.id annotated_instance) = Some instance_id →
     original_lookup !! instance_id = None) →
  scored_instance original_lookup annotated_instance = None.
Proof.
  intros Hunknown. unfold scored_instance.
  destruct (py_or _ _) as [instance_id|]; [|done].
  rewrite (Hunknown instance_id eq_refl). by destruct (truthy _).
Qed.

(** X19.  The result for one annotator: [total_instances] is the number of
    entries of [per_instance] and never exceeds the number of the
    annotator's annotations; every entry has a non-empty instance id that is
    a key of the original lookup, the model keyword set of that record, and
    the metrics of its annotated set against it; the aggregate is the
    aggregation of exactly these metrics.  Annotations whose id is absent
    from the lookup are skipped without error: when none resolves, the
    result is zero instances, an empty aggregate and no entries. *)
Theorem user_metrics_over_scored_instances
    (user_annotations : list Overlap.AnnotatedInstance.t)
    (original_lookup : gmap string Overlap.OriginalInstance.t) :
  Overlap.UserResult.total_instances
    (Overlap.compute_user_metrics user_annotations original_lookup)
  = length (Overlap.UserResult.per_instance
              (Overlap.compute_user_metrics user_annotations original_lookup)) ∧
  Overlap.UserResult.total_instances
    (Overlap.compute_user_metrics user_annotations original_lookup)
  ≤ length user_annotations ∧
  Overlap.UserResult.aggregate_metrics
    (Overlap.compute_user_metrics user_annotations original_lookup)
  = Overlap.compute_aggregate_metrics
      (map Overlap.InstanceResult.metrics
           (Overlap.UserResult.per_instance
              (Overlap.compute_user_metrics user_annotations original_lookup))) ∧
  Forall
    (fun result =>
       Overlap.InstanceResult.instance_id result ≠ "" ∧
       ∃ original_instance,
         original_lookup !! Overlap.InstanceResult.instance_id result
           = Some original_instance ∧
         Overlap.InstanceResult.model_keywords result
           = Overlap.extract_model_keywords original_instance ∧
         Overlap.InstanceResult.metrics result
           = Overlap.compute_metrics
               (Overlap.InstanceResult.annotated_keywords result)
               (Overlap.InstanceResult.model_keywords result))
    (Overlap.UserResult.per_instance
       (Overlap.compute_user_metrics user_annotations original_lookup)) ∧
  ((∀ annotated_instance instance_id,
      annotated_instance ∈ user_annotations →
      py_or (Overlap.AnnotatedInstance.instance_id annotated_instance)
            (Overlap.AnnotatedInstance.id annotated_instance) = Some instance_id →
      original_lookup !! instance_id = None) →
   Overlap.compute_user_metrics user_annotations original_lookup
   = Overlap.UserResult.mk 0 ∅ []).
Proof.
  rewrite compute_user_metrics_scored. simpl.
  split; [done|]. split; [apply omap_length_le|]. split; [done|]. split.
  - apply Forall_forall. intros result Hresult.
    apply list_elem_of_omap in Hresult as (annotated_instance & _ & Hscored).
    apply scored_instance_Some in Hscored
      as (original_instance & _ & Hne & Hlookup & Hmodel & _ & Hmetrics).
    split; [done|]. by exists original_instance.
  - intros Hunknown.
    assert (omap (scored_instance original_lookup) user_annotations = []) as ->; [|done].
    induction user_annotations as [|annotated_instance user_annotations IH]; [done|].
    simpl. rewrite scored_instance_unknown.
    + apply IH. intros a i Ha. apply Hunknown. by apply list_elem_of_further.
    + intros i. apply Hunknown. apply list_elem_of_here.
Qed.

Lemma foldl_add_lengths {A B} (f : A → list B) (l : list A) (start : nat) :
  foldl Nat.add start (map (fun x => length (f x)) l)
  = start + length (flat_map f l).
Proof.
  revert start. induction l as [|x l IH]; intros start; simpl; [lia|].
  rewrite IH, length_app. lia.
Qed.

(** X20.  The overall [total_instances] of the report equals the number of
    metrics in the flat list the overall aggregate is computed from, and the
    number of scored instances of the annotated file: every annotation with a
    user id, an instance id and a matching original record counts once, and
    no other annotation counts. *)
Theorem overall_total_counts_scored_instances
    (original_data : list Overlap.OriginalInstance.t)
    (annotated_data : list Overlap.AnnotatedInstance.t) :
  Overlap.Report.overall_total_instances (Overlap.main original_data annotated_data)
  = length (Overlap.all_instance_metrics
              (Overlap.Report.per_user (Overlap.main original_data annotated_data))) ∧
  Overlap.Report.overall_total_instances (Overlap.main original_data annotated_data)
  = length (scored_instances original_data annotated_data) ∧
  Overlap.Report.overall_total_instances (Overlap.main original_data annotated_data)
  ≤ length annotated_data.
Proof.
  assert (Overlap.Report.overall_total_instances
            (Overlap.main original_data annotated_data)
          = length (Overlap.all_instance_metrics
                      (Overlap.Report.per_user
                         (Overlap.main original_data annotated_data)))) as Htotal.
  { unfold Overlap.main. cbn [Overlap.Report.overall_total_instances
                               Overlap.Report.per_user].
    rewrite all_instance_metrics_groups. unfold Overlap.compute_user_results.
    rewrite map_map. cbn [snd].
    rewrite (map_ext _ (fun user_id =>
               length (omap (scored_instance
                               (Overlap.build_original_lookup original_data))
                            (default [] (Overlap.group_by_user annotated_data
                                           !! user_id)))))
      by (intros user_id; by rewrite compute_user_metrics_scored).
    rewrite foldl_add_lengths, length_map. simpl. f_equal.
    induction (Overlap.sorted_users (Overlap.group_by_user annotated_data))
      as [|user_id users IH]; [done|]. simpl. by rewrite omap_app, IH. }
  assert (length (Overlap.all_instance_metrics
                    (Overlap.Report.per_user
                       (Overlap.main original_data annotated_data)))
          = length (scored_instances original_data annotated_data)) as Hscored.
  { rewrite (Permutation_length
               (all_instance_metrics_scored original_data annotated_data)).
    apply length_map. }
  split; [done|]. split; [by rewrite Htotal|].
  rewrite Htotal, Hscored. unfold scored_instances.
  etrans; [apply omap_length_le|]. apply length_filter.
Qed.

(** The annotations collected for a user after a run of annotated
    instances. *)
Lemma group_step_lookup groups annotated_instance (user_id : string) :
  Overlap.group_step groups annotated_instance !! user_id =
  if decide (Overlap.AnnotatedInstance.user_id annotated_instance = Some user_id
             ∧ user_id ≠ "")
  then Some (default [] (groups !! user_id) ++ [annotated_instance])
  else groups !! user_id.
Proof.
  unfold Overlap.group_step.
  destruct (Overlap.AnnotatedInstance.user_id annotated_instance) as [u|] eqn:Hu.
  - destruct (truthy (Some u)) eqn:Htruthy.
    + assert (u ≠ "") as Hne by (intros ->; done).
      destruct (decide (u = user_id)) as [->|Hother].
      * rewrite lookup_insert_eq. by rewrite decide_True.
      * rewrite lookup_insert_ne by done. rewrite decide_False; [done|].
        intros [[= ?] _]. done.
    + rewrite decide_False; [done|]. intros [[= ->] Hne].
      simpl in Htruthy. apply negb_false_iff, String.eqb_eq in Htruthy. done.
  - rewrite decide_False; [done|]. by intros [? _].
Qed.

Lemma group_fold_lookup annotated_data (user_id : string) :
  user_id ≠ "" →
  ∀ groups,
    foldl Overlap.group_step groups annotated_data !! user_id =
    match filter (fun annotated_instance =>
                    Overlap.AnnotatedInstance.user_id annotated_instance
                    = Some user_id) annotated_data with
    | [] => groups !! user_id
    | first :: others => Some (default [] (groups !! user_id) ++ first :: others)
    end.
Proof.
  intros Hne. induction annotated_data as [|instance annotated_data IH];
    intros groups; [done|].
  cbn [foldl]. rewrite IH, group_step_lookup.
  destruct (decide (Overlap.AnnotatedInstance.user_id instance = Some user_id))
    as [Hu|Hu].
  - rewrite filter_cons_True by done. rewrite decide_True by done. simpl.
    destruct (filter _ annotated_data); [done|]. by rewrite <-List.app_assoc.
  - rewrite filter_cons_False by done. rewrite decide_False by (by intros [? _]).
    done.
Qed.

Lemma group_fold_empty_user annotated_data :
  ∀ groups, foldl Overlap.group_step groups annotated_data !! ""
            = groups !! "".
Proof.
  induction annotated_data as [|instance annotated_data IH]; intros groups;
    [done|].
  cbn [foldl]. rewrite IH, group_step_lookup. rewrite decide_False; [done|].
  by intros [_ ?].
Qed.

(** The annotations of a user, in the order of the annotated file. *)
Lemma group_by_user_lookup annotated_data (user_id : string) :
  Overlap.group_by_user annotated_data !! user_id =
  match filter (fun annotated_instance =>
                  Overlap.AnnotatedInstance.user_id annotated_instance
                  = Some user_id) annotated_data with
  | [] => None
  | first :: others => if decide (user_id = "") then None else Some (first :: others)
  end.
Proof.
  unfold Overlap.group_by_user. destruct (decide (user_id = "")) as [->|Hne].
  - rewrite group_fold_empty_user, lookup_empty. by destruct (filter _ _).
  - rewrite group_fold_lookup by done. rewrite lookup_empty. done.
Qed.

Lemma string_le_total : Total Overlap.string_le.
Proof. intros a b. apply String.leb_total. Qed.

(** X21.  The per-annotator part of the report: the annotators are the
    non-empty user ids that occur in the annotated file, each listed once, in
    ascending order; the result of an annotator is [compute_user_metrics]
    applied to that annotator's annotations alone, in the order of the file.
    Annotations without a user id belong to nobody. *)
Theorem per_user_results_by_annotator
    (original_data : list Overlap.OriginalInstance.t)
    (annotated_data : list Overlap.AnnotatedInstance.t) :
  Sorted Overlap.string_le
         (map fst (Overlap.Report.per_user (Overlap.main original_data annotated_data))) ∧
  NoDup (map fst (Overlap.Report.per_user (Overlap.main original_data annotated_data))) ∧
  (∀ user_id,
     user_id ∈ map fst (Overlap.Report.per_user
                          (Overlap.main original_data annotated_data)) ↔
     user_id ≠ "" ∧
     ∃ annotated_instance,
       annotated_instance ∈ annotated_data ∧
       Overlap.AnnotatedInstance.user_id annotated_instance = Some user_id) ∧
  Forall
    (fun entry =>
       entry.2 =
       Overlap.compute_user_metrics
         (filter (fun annotated_instance =>
                    Overlap.AnnotatedInstance.user_id annotated_instance
                    = Some entry.1) annotated_data)
         (Overlap.build_original_lookup original_data))
    (Overlap.Report.per_user (Overlap.main original_data annotated_data)).
Proof.
  unfold Overlap.main. cbn [Overlap.Report.per_user].
  unfold Overlap.compute_user_results. rewrite map_map. cbn [fst]. rewrite map_id.
  assert (∀ user_id,
            user_id ∈ Overlap.sorted_users (Overlap.group_by_user annotated_data) ↔
            is_Some (Overlap.group_by_user annotated_data !! user_id)) as Hdom.
  { intros user_id. unfold Overlap.sorted_users.
    rewrite merge_sort_Permutation. apply elem_of_dict_keys. }
  split; [apply (@Sorted_merge_sort _ _ _ string_le_total)|]. split; [|split].
  - unfold Overlap.sorted_users. rewrite merge_sort_Permutation.
    apply NoDup_fst_map_to_list.
  - intros user_id. rewrite Hdom, group_by_user_lookup. split.
    + destruct (filter _ annotated_data) as [|first others] eqn:Hfilter;
        [by intros [? ?]|].
      destruct (decide (user_id = "")) as [->|Hne]; [by intros [? ?]|].
      intros _. split; [done|]. exists first.
      assert (first ∈ filter (fun annotated_instance =>
                Overlap.AnnotatedInstance.user_id annotated_instance = Some user_id)
                annotated_data) as Hin by (rewrite Hfilter; apply list_elem_of_here).
      apply list_elem_of_filter in Hin as [? ?]. done.
    + intros (Hne & instance & Hin & Huser).
      assert (instance ∈ filter (fun annotated_instance =>
                Overlap.AnnotatedInstance.user_id annotated_instance = Some user_id)
                annotated_data) as Hf by (by apply list_elem_of_filter).
      destruct (filter _ annotated_data); [by apply elem_of_nil in Hf|].
      by rewrite decide_False.
  - apply Forall_forall. intros [user_id result] Hentry.
    apply list_elem_of_fmap in Hentry as (u & [= -> ->] & Hu). simpl.
    apply Hdom in Hu. rewrite group_by_user_lookup in Hu |- *.
    destruct (filter _ annotated_data); [by destruct Hu|].
    destruct (decide (u = "")); [by destruct Hu|]. done.
Qed.
